(** * Tic-tac-toe game engine of [src/tic_tac_toe_frontend/src/App.js]

    A shallow embedding of the React component's game state (history of
    boards, step number, turn flag, theme), of its event handlers and of
    [calculateWinner], followed by the properties of the engine.

    JavaScript values are modelled as far as the component can produce them:
    a board cell holds [null], ["X"] or ["O"]; a read outside an array gives
    [undefined]; a write outside an array extends it (leaving holes) or, for
    a key that is no array index, sets a plain property, which [slice]
    does not copy.  Numbers are mathematical integers. *)

From Stdlib Require Import ZArith Lia List Bool String.
From stdpp Require Import base option list gmap.

Open Scope Z_scope.

(** ** JavaScript values and arrays *)

Inductive Player := X | O.

Inductive value :=
| undefined
| null
| str (p : Player).

#[global] Instance Player_eq_dec : EqDecision Player.
Proof. solve_decision. Defined.

#[global] Instance value_eq_dec : EqDecision value.
Proof. solve_decision. Defined.

(** [Boolean(v)]: of the values a cell can hold only the strings are truthy. *)
Definition Boolean (v : value) : bool :=
  match v with
  | str _ => true
  | _ => false
  end.

(** [v === w] *)
Definition strict_eq (v w : value) : bool := bool_decide (v = w).

(** An array: its elements ([None] is a hole) and its properties whose key is
    no array index (a negative integer, or one above [2^32 - 2]); the only
    values the component ever stores under such a key are the marks. *)
Record JsArray := mkArray {
  elems : list (option value);
  props : gmap Z Player
}.

Definition is_index (i : Z) : bool := (0 <=? i) && (i <? 2 ^ 32 - 1).

Definition arr_length (a : JsArray) : Z := Z.of_nat (length (elems a)).

(** [a[i]] *)
Definition get (a : JsArray) (i : Z) : value :=
  if is_index i then
    match elems a !! Z.to_nat i with
    | Some (Some v) => v
    | _ => undefined
    end
  else from_option str undefined (props a !! i).

(** [a[i] = p] for a mark [p] *)
Definition set (a : JsArray) (i : Z) (p : Player) : JsArray :=
  if is_index i then
    if i <? arr_length a then
      mkArray (<[Z.to_nat i := Some (str p)]> (elems a)) (props a)
    else
      mkArray (elems a ++ replicate (Z.to_nat (i - arr_length a)) None ++ [Some (str p)])
              (props a)
  else mkArray (elems a) (<[i := p]> (props a)).

(** [a.slice()] copies the elements, holes included, and nothing else. *)
Definition slice (a : JsArray) : JsArray := mkArray (elems a) ∅.

(** [a.every(Boolean)] skips the holes. *)
Definition every_Boolean (a : JsArray) : bool :=
  forallb (fun slot => match slot with
                       | Some v => Boolean v
                       | None => true
                       end) (elems a).

(** [Array(9).fill(null)] *)
Definition empty_squares : JsArray := mkArray (replicate 9 (Some null)) ∅.

(** ** calculateWinner *)

Definition Line : Type := Z * Z * Z.

Definition lines : list Line :=
  [ (0, 1, 2); (3, 4, 5); (6, 7, 8);
    (0, 3, 6); (1, 4, 7); (2, 5, 8);
    (0, 4, 8); (2, 4, 6) ].

Record WinnerInfo := mkWinner {
  winner : value;
  line : Line
}.

(** The condition of the [if] in the loop body. *)
Definition line_hit (squares : JsArray) (l : Line) : bool :=
  let '(a, b, c) := l in
  Boolean (get squares a)
  && strict_eq (get squares a) (get squares b)
  && strict_eq (get squares a) (get squares c).

(** The [for] loop over the remaining lines. *)
Fixpoint scan_lines (ls : list Line) (squares : JsArray) : option WinnerInfo :=
  match ls with
  | [] => None
  | l :: rest =>
      if line_hit squares l
      then Some (mkWinner (get squares (fst (fst l))) l)
      else scan_lines rest squares
  end.

Definition calculateWinner (squares : JsArray) : option WinnerInfo :=
  scan_lines lines squares.

(** ** The component state *)

Record State := mkState {
  history : list JsArray;
  stepNumber : Z;
  xIsNext : bool;
  theme : string
}.

(** The four [useState] initial values. *)
Definition init : State := mkState [empty_squares] 0 true "light".

(** [history[i]]; the history array never has holes or extra properties. *)
Definition hist_get (h : list JsArray) (i : Z) : option JsArray :=
  if 0 <=? i then h !! Z.to_nat i else None.

(** [h.slice(0, e)] *)
Definition slice_to (h : list JsArray) (e : Z) : list JsArray :=
  let len := Z.of_nat (length h) in
  let k := if e <? 0 then Z.max (len + e) 0 else Z.min e len in
  take (Z.to_nat k) h.

(** The derived values of one render. *)
Record Derived := mkDerived {
  currentSquares : JsArray;
  winnerInfo : option WinnerInfo;
  isDraw : bool
}.

(** A render computes the derived values; when [history[stepNumber]] is
    [undefined], [calculateWinner] throws and there is no render ([None]). *)
Definition render (s : State) : option Derived :=
  match hist_get (history s) (stepNumber s) with
  | None => None
  | Some cs =>
      let w := calculateWinner cs in
      Some (mkDerived cs w (negb (bool_decide (is_Some w)) && every_Boolean cs))
  end.

(** The outcome shown by the status line: winner, draw, or next player. *)
Inductive Outcome :=
| InProgress
| Win (w : value) (l : Line)
| Draw.

Definition outcome_of (w : option WinnerInfo) (draw : bool) : Outcome :=
  match w with
  | Some wi => Win (winner wi) (line wi)
  | None => if draw then Draw else InProgress
  end.

Definition evaluate (squares : JsArray) : Outcome :=
  let w := calculateWinner squares in
  outcome_of w (negb (bool_decide (is_Some w)) && every_Boolean squares).

(** ** Event handlers *)

(** ["X"] or ["O"] for the player to move. *)
Definition mark (x : bool) : Player := if x then X else O.

(** [handleClick(i)] as a closure over the derived values of a render. *)
Definition handleClick_in (d : Derived) (i : Z) (s : State) : State :=
  if bool_decide (is_Some (winnerInfo d)) || Boolean (get (currentSquares d) i)
  then s
  else
    let squares := set (slice (currentSquares d)) i (mark (xIsNext s)) in
    let newHistory := slice_to (history s) (stepNumber s + 1) ++ [squares] in
    mkState newHistory (Z.of_nat (length newHistory) - 1) (negb (xIsNext s))
            (theme s).

Definition handleClick (i : Z) (s : State) : option State :=
  d ← render s; Some (handleClick_in d i s).

(** [step % 2 === 0] with JavaScript's truncating remainder. *)
Definition is_even_step (step : Z) : bool := Z.rem step 2 =? 0.

Definition jumpTo (step : Z) (s : State) : State :=
  mkState (history s) step (is_even_step step) (theme s).

Definition handleReset (s : State) : State :=
  mkState [empty_squares] 0 true (theme s).

Definition handleUndo (s : State) : State :=
  if 0 <? stepNumber s
  then mkState (history s) (stepNumber s - 1)
               (is_even_step (stepNumber s - 1)) (theme s)
  else s.

Definition handleRedo (s : State) : State :=
  if stepNumber s <? Z.of_nat (length (history s)) - 1
  then mkState (history s) (stepNumber s + 1)
               (is_even_step (stepNumber s + 1)) (theme s)
  else s.

(** The theme button: [setTheme(prev => prev === "light" ? "dark" : "light")]. *)
Definition toggleTheme (s : State) : State :=
  mkState (history s) (stepNumber s) (xIsNext s)
          (if String.eqb (theme s) "light" then "dark" else "light")%string.

(** ** Commands *)

Inductive Command :=
| Play (i : Z)
| JumpTo (step : Z)
| Undo
| Redo
| Reset
| ToggleTheme.

(** A command is a handler of the current render, so it needs one. *)
Definition exec (c : Command) (s : State) : option State :=
  d ← render s;
  Some match c with
       | Play i => handleClick_in d i s
       | JumpTo step => jumpTo step s
       | Undo => handleUndo s
       | Redo => handleRedo s
       | Reset => handleReset s
       | ToggleTheme => toggleTheme s
       end.

Fixpoint run (cs : list Command) (s : State) : option State :=
  match cs with
  | [] => Some s
  | c :: rest => s' ← exec c s; run rest s'
  end.

(** The inputs the interface offers: a cell of the grid, a step of the
    history. *)
Definition legal (s : State) (c : Command) : Prop :=
  match c with
  | Play i => 0 <= i <= 8
  | JumpTo step => 0 <= step <= Z.of_nat (length (history s)) - 1
  | _ => True
  end.

Inductive reachable : State -> Prop :=
| reach_init : reachable init
| reach_step s c s' :
    reachable s -> legal s c -> exec c s = Some s' -> reachable s'.

Definition is_game (c : Command) : bool :=
  match c with
  | ToggleTheme => false
  | _ => true
  end.

(** The game part of the state. *)
Definition game (s : State) : list JsArray * Z * bool :=
  (history s, stepNumber s, xIsNext s).

(** ** The data model of the specification *)

(** A cell of the grid holds [null], ["X"] or ["O"]. *)
Definition is_cell (slot : option value) : Prop :=
  slot = Some null \/ exists p, slot = Some (str p).

(** A board: an array of exactly nine cells and nothing else. *)
Definition board9 (b : JsArray) : Prop :=
  length (elems b) = 9%nat /\ Forall is_cell (elems b) /\ props b = ∅.

(** The mover at step [k]: X at the even steps. *)
Definition mover (k : Z) : Player := if Z.even k then X else O.

(** [b'] is [b] with one empty cell of the grid marked by [p]. *)
Definition one_move (p : Player) (b b' : JsArray) : Prop :=
  exists i, 0 <= i <= 8 /\ get b i = null /\ get b' i = str p
            /\ forall j, j <> i -> get b' j = get b j.

(** The invariant of the engine: the cursor points into the history, the
    turn flag is the parity of the cursor, every entry is a board, and each
    entry is the previous one with one more mark, by the mover of that step. *)
Definition inv (s : State) : Prop :=
  0 <= stepNumber s < Z.of_nat (length (history s))
  /\ xIsNext s = Z.even (stepNumber s)
  /\ Forall board9 (history s)
  /\ forall (k : nat) b b',
       history s !! k = Some b -> history s !! S k = Some b' ->
       one_move (mover (Z.of_nat k)) b b'.

Module Spec.

(** Cells and outcomes in the words of the specification. *)
Inductive Cell :=
| Empty
| Mark (p : Player).

Inductive Outcome :=
| InProgress
| Win (p : Player) (l : Line)
| Draw.

Definition rows : list Line := [ (0, 1, 2); (3, 4, 5); (6, 7, 8) ].
Definition columns : list Line := [ (0, 3, 6); (1, 4, 7); (2, 5, 8) ].
Definition diagonals : list Line := [ (0, 4, 8); (2, 4, 6) ].

Definition triples : list Line := rows ++ columns ++ diagonals.

Definition cell_at (cs : list Cell) (i : Z) : option Cell :=
  if 0 <=? i then cs !! Z.to_nat i else None.

(** The three cells of a triple are non-Empty and equal. *)
Definition triple_mark (cs : list Cell) (l : Line) : option Player :=
  let '(a, b, c) := l in
  match cell_at cs a, cell_at cs b, cell_at cs c with
  | Some (Mark p), Some (Mark q), Some (Mark r) =>
      if bool_decide (p = q) && bool_decide (p = r) then Some p else None
  | _, _, _ => None
  end.

(** The first triple, in the given order, that matches. *)
Fixpoint first_match (ts : list Line) (cs : list Cell) : option (Player * Line) :=
  match ts with
  | [] => None
  | l :: rest =>
      match triple_mark cs l with
      | Some p => Some (p, l)
      | None => first_match rest cs
      end
  end.

Definition non_empty (c : Cell) : bool :=
  match c with
  | Empty => false
  | Mark _ => true
  end.

Definition evaluate (cs : list Cell) : Outcome :=
  match first_match triples cs with
  | Some (p, l) => Win p l
  | None => if forallb non_empty cs then Draw else InProgress
  end.

End Spec.

(** The array that holds the cells of a board of the specification. *)
Definition cell_value (c : Spec.Cell) : value :=
  match c with
  | Spec.Empty => null
  | Spec.Mark p => str p
  end.

Definition of_cells (cs : list Spec.Cell) : JsArray :=
  mkArray (map (fun c => Some (cell_value c)) cs) ∅.

Definition of_outcome (o : Spec.Outcome) : Outcome :=
  match o with
  | Spec.InProgress => InProgress
  | Spec.Win p l => Win (str p) l
  | Spec.Draw => Draw
  end.

(** The three positions of a line are array indices. *)
Definition index_line (l : Line) : bool :=
  let '(a, b, c) := l in is_index a && is_index b && is_index c.

(** ** What a render shows *)

(** The status line: the winner with its class, the draw message, or the next
    player with its class. *)
Inductive Status :=
| StatusWinner (className : string) (w : value)
| StatusDraw
| StatusNext (className : string) (label : string).

Definition status (d : Derived) (x : bool) : Status :=
  match winnerInfo d with
  | Some wi =>
      StatusWinner (if strict_eq (winner wi) (str X)
                    then "player-x status-player"
                    else "player-o status-player")
                   (winner wi)
  | None =>
      if isDraw d then StatusDraw
      else StatusNext (if x then "player-x status-player" else "player-o status-player")
                      (if x then "X" else "O")
  end.

(** [line.includes(i)] *)
Definition line_includes (l : Line) (i : Z) : bool :=
  let '(a, b, c) := l in (i =? a) || (i =? b) || (i =? c).

(** [winningLine?.includes(i)]: [undefined] ([None]) without a winning line. *)
Definition isWinningSquare (winningLine : option Line) (i : Z) : option bool :=
  (fun l => line_includes l i) <$> winningLine.

(** The button a [Square] renders. *)
Record SquareView := mkSquare {
  sq_highlight : bool;
  sq_classes : string;
  sq_disabled : bool;
  sq_text : value
}.

Definition Square (v : value) (highlight : option bool) : SquareView :=
  let h := default false highlight in
  mkSquare h
           ("ttt-square"
            ++ (if h then " highlight" else "")
            ++ (if strict_eq v (str X) then " x-square"
                else if strict_eq v (str O) then " o-square" else ""))%string
           (Boolean v) v.

(** [renderSquare(i)]: the square of cell [i]; its click calls [onClick(i)]. *)
Definition renderSquare (squares : JsArray) (winningLine : option Line) (i : Z)
  : Z * SquareView :=
  (i, Square (get squares i) (isWinningSquare winningLine i)).

(** The two loops of [Board], [r] and [c] from 0 to 2. *)
Definition Board (squares : JsArray) (winningLine : option Line)
  : list (list (Z * SquareView)) :=
  map (fun r => map (fun c => renderSquare squares winningLine (r * 3 + c)) [0; 1; 2])
      [0; 1; 2].

Definition undo_disabled (s : State) : bool := stepNumber s =? 0.

Definition redo_disabled (s : State) : bool :=
  stepNumber s =? Z.of_nat (length (history s)) - 1.

(** The classes of the two spans of the player indicator. *)
Definition player_indicator (x : bool) : string * string :=
  (if x then "player-x active" else "player-x",
   if x then "player-o" else "player-o active")%string.

(** The [aria-label] of the theme button. *)
Definition theme_aria_label (s : State) : string :=
  ("Switch to " ++ (if String.eqb (theme s) "light" then "dark" else "light")
   ++ " mode")%string.

Record View := mkView {
  v_status : Status;
  v_board : list (list (Z * SquareView));
  v_undo_disabled : bool;
  v_redo_disabled : bool;
  v_indicator : string * string;
  v_aria_label : string
}.

(** The state-dependent parts of what [App] returns, when the render does
    not throw. *)
Definition App (s : State) : option View :=
  d ← render s;
  Some (mkView (status d (xIsNext s))
               (Board (currentSquares d) (line <$> winnerInfo d))
               (undo_disabled s) (redo_disabled s)
               (player_indicator (xIsNext s))
               (theme_aria_label s)).

(** The three cells of a line hold the mark [p]. *)
Definition holds_line (squares : JsArray) (p : Player) (l : Line) : Prop :=
  let '(a, b, c) := l in
  get squares a = str p /\ get squares b = str p /\ get squares c = str p.

(** ** Counting the marks of the grid *)

Definition grid : list Z := [0; 1; 2; 3; 4; 5; 6; 7; 8].

(** The number of cells among [cells] that hold the mark [p]. *)
Definition count_in (p : Player) (b : JsArray) (cells : list Z) : Z :=
  fold_right Z.add 0
    (map (fun j => if bool_decide (get b j = str p) then 1 else 0) cells).

Definition count_mark (p : Player) (b : JsArray) : Z := count_in p b grid.

(** Further invariants of the engine: the history starts with the empty
    board, only its last entry can show a winner, and the theme is one of the
    two the toggle produces. *)
Definition inv_game (s : State) : Prop :=
  history s !! 0%nat = Some empty_squares
  /\ (forall (k : nat) b,
         history s !! k = Some b -> (S k < length (history s))%nat ->
         calculateWinner b = None)
  /\ (theme s = "light"%string \/ theme s = "dark"%string).

(** A run in which every command is one the interface offers. *)
Definition legalb (s : State) (c : Command) : bool :=
  match c with
  | Play i => (0 <=? i) && (i <=? 8)
  | JumpTo step => (0 <=? step) && (step <=? Z.of_nat (length (history s)) - 1)
  | _ => true
  end.

Fixpoint run_legal (cs : list Command) (s : State) : option State :=
  match cs with
  | [] => Some s
  | c :: rest => if legalb s c then s' ← exec c s; run_legal rest s' else None
  end.

(** ** Arrays: reads after writes *)

Section ArrayLemmas.

Implicit Types (a : JsArray) (i j : Z) (p : Player).

Lemma get_set_eq a i p : get (set a i p) i = str p.
Proof.
  unfold get, set, arr_length.
  destruct (is_index i) eqn:Hi; simpl.
  - apply andb_true_iff in Hi as [H0 _]. apply Z.leb_le in H0.
    destruct (Z.ltb_spec i (Z.of_nat (length (elems a)))) as [Hlt | Hge]; simpl.
    + rewrite list_lookup_insert_eq by lia. reflexivity.
    + rewrite lookup_app_r by lia.
      rewrite lookup_app_r by (rewrite length_replicate; lia).
      rewrite length_replicate.
      replace (Z.to_nat i - length (elems a) - Z.to_nat (i - Z.of_nat (length (elems a))))%nat
        with 0%nat by lia.
      reflexivity.
  - rewrite lookup_insert_eq. reflexivity.
Qed.

Lemma get_set_ne a i j p : j <> i -> get (set a i p) j = get a j.
Proof.
  intros Hne. unfold get, set, arr_length.
  destruct (is_index i) eqn:Hi, (is_index j) eqn:Hj; simpl;
    [ | destruct (i <? _); reflexivity | reflexivity | ].
  - apply andb_true_iff in Hi as [Hi _]. apply Z.leb_le in Hi.
    apply andb_true_iff in Hj as [Hj _]. apply Z.leb_le in Hj.
    destruct (Z.ltb_spec i (Z.of_nat (length (elems a)))) as [Hlt | Hge]; simpl.
    + rewrite list_lookup_insert_ne by lia. reflexivity.
    + destruct (Z.ltb_spec j (Z.of_nat (length (elems a)))) as [Hjl | Hjg].
      * rewrite lookup_app_l by lia. reflexivity.
      * rewrite (lookup_ge_None_2 (elems a)) by lia.
        rewrite lookup_app_r by lia.
        destruct (Z.ltb_spec j i) as [Hji | Hij].
        -- rewrite lookup_app_l by (rewrite length_replicate; lia).
           rewrite lookup_replicate_2 by lia. reflexivity.
        -- rewrite lookup_ge_None_2; [reflexivity|].
           rewrite length_app, length_replicate. simpl. lia.
  - rewrite lookup_insert_ne by congruence. reflexivity.
Qed.

Lemma get_slice a j : is_index j = true -> get (slice a) j = get a j.
Proof. intros Hj. unfold get, slice. rewrite Hj. reflexivity. Qed.

Lemma slice_board9 a : board9 a -> slice a = a.
Proof. intros (_ & _ & Hp). destruct a as [e p]. simpl in Hp. subst p. reflexivity. Qed.

(** A read inside a board gives a cell value, a read outside [undefined]. *)
Lemma get_board9_in a i :
  board9 a -> 0 <= i <= 8 -> get a i = null \/ exists p, get a i = str p.
Proof.
  intros (Hlen & Hcells & _) Hi. unfold get, is_index.
  replace ((0 <=? i) && (i <? 2 ^ 32 - 1)) with true
    by (symmetry; apply andb_true_iff; split; [apply Z.leb_le | apply Z.ltb_lt]; lia).
  destruct (lookup_lt_is_Some_2 (elems a) (Z.to_nat i)) as [slot Hslot]; [lia|].
  rewrite Hslot.
  pose proof (proj1 (Forall_lookup _ _) Hcells _ _ Hslot) as [-> | [p ->]]; eauto.
Qed.

Lemma get_board9_out a i : board9 a -> i < 0 \/ 8 < i -> get a i = undefined.
Proof.
  intros (Hlen & _ & Hp) Hi. unfold get. rewrite Hp.
  destruct (is_index i) eqn:Hidx.
  - apply andb_true_iff in Hidx as [H0 _]. apply Z.leb_le in H0.
    rewrite lookup_ge_None_2 by lia. reflexivity.
  - rewrite lookup_empty. reflexivity.
Qed.

Lemma set_board9 a i p : board9 a -> 0 <= i <= 8 -> board9 (set a i p).
Proof.
  intros (Hlen & Hcells & Hp) Hi. unfold set, arr_length, is_index.
  replace ((0 <=? i) && (i <? 2 ^ 32 - 1)) with true
    by (symmetry; apply andb_true_iff; split; [apply Z.leb_le | apply Z.ltb_lt]; lia).
  replace (i <? Z.of_nat (length (elems a))) with true
    by (symmetry; apply Z.ltb_lt; lia).
  repeat split; simpl.
  - rewrite length_insert. exact Hlen.
  - apply Forall_insert; [exact Hcells | right; eauto].
  - exact Hp.
Qed.

Lemma empty_squares_board9 : board9 empty_squares.
Proof.
  repeat split. simpl. repeat constructor.
Qed.

Lemma every_Boolean_board9 a i :
  board9 a -> every_Boolean a = true -> 0 <= i <= 8 -> Boolean (get a i) = true.
Proof.
  intros (Hlen & Hcells & _) Hall Hi. unfold get, is_index.
  replace ((0 <=? i) && (i <? 2 ^ 32 - 1)) with true
    by (symmetry; apply andb_true_iff; split; [apply Z.leb_le | apply Z.ltb_lt]; lia).
  destruct (lookup_lt_is_Some_2 (elems a) (Z.to_nat i)) as [slot Hslot]; [lia|].
  rewrite Hslot. unfold every_Boolean in Hall.
  rewrite forallb_forall in Hall.
  specialize (Hall slot). destruct slot as [v|].
  - apply Hall. apply list_elem_of_In. eapply list_elem_of_lookup_2. exact Hslot.
  - pose proof (proj1 (Forall_lookup _ _) Hcells _ _ Hslot) as [? | [p ?]];
      discriminate.
Qed.

End ArrayLemmas.

(** ** Outcome evaluation against the specification *)

Section Evaluate.

Implicit Types (cs : list Spec.Cell) (l : Line).

Lemma get_of_cells cs i :
  is_index i = true ->
  get (of_cells cs) i = from_option cell_value undefined (Spec.cell_at cs i).
Proof.
  intros Hi. unfold get, of_cells, Spec.cell_at. rewrite Hi. simpl.
  apply andb_true_iff in Hi as [H0 _]. rewrite H0.
  rewrite list_lookup_fmap. destruct (cs !! Z.to_nat i); reflexivity.
Qed.

Lemma line_hit_of_cells cs l :
  index_line l = true ->
  match Spec.triple_mark cs l with
  | Some p => line_hit (of_cells cs) l = true
              /\ get (of_cells cs) (fst (fst l)) = str p
  | None => line_hit (of_cells cs) l = false
  end.
Proof.
  destruct l as [[a b] c]. unfold index_line, line_hit, Spec.triple_mark.
  intros H. apply andb_true_iff in H as [H Hc].
  apply andb_true_iff in H as [Ha Hb]. simpl fst.
  rewrite !get_of_cells by assumption. unfold strict_eq.
  destruct (Spec.cell_at cs a) as [[|p]|]; simpl; try reflexivity.
  destruct (Spec.cell_at cs b) as [[|q]|]; simpl; try reflexivity.
  destruct (Spec.cell_at cs c) as [[|r]|]; simpl;
    destruct p, q; simpl; try reflexivity; try destruct r; simpl; auto.
Qed.

Lemma scan_lines_of_cells ts cs :
  forallb index_line ts = true ->
  scan_lines ts (of_cells cs)
  = (fun pl => mkWinner (str (fst pl)) (snd pl)) <$> Spec.first_match ts cs.
Proof.
  induction ts as [|l ts IH]; simpl; [reflexivity|].
  intros H. apply andb_true_iff in H as [Hl Hts].
  pose proof (line_hit_of_cells cs l Hl) as Hhit.
  destruct (Spec.triple_mark cs l) as [p|].
  - destruct Hhit as [-> ->]. reflexivity.
  - rewrite Hhit. apply IH, Hts.
Qed.

Lemma every_Boolean_of_cells cs :
  every_Boolean (of_cells cs) = forallb Spec.non_empty cs.
Proof.
  unfold every_Boolean, of_cells. simpl.
  induction cs as [|[|p] cs IH]; simpl; [reflexivity | reflexivity | exact IH].
Qed.

Lemma of_cells_board9 cs : length cs = 9%nat -> board9 (of_cells cs).
Proof.
  intros Hlen. repeat split; simpl.
  - rewrite length_map. exact Hlen.
  - apply Forall_forall. intros slot Hin. apply list_elem_of_In in Hin.
    apply in_map_iff in Hin as ([|p] & <- & _); [left | right]; eauto.
Qed.

Lemma lines_are_triples : lines = Spec.triples.
Proof. reflexivity. Qed.

End Evaluate.

(** C2. For every 9-cell board, the outcome computed by [calculateWinner] and
    [isDraw] is the one the specification describes: the eight triples are
    scanned in the order rows, columns, diagonals, the first triple whose
    cells are non-Empty and equal gives Win with that mark and that triple;
    without a match a full board is a Draw and any other board is
    InProgress. *)
Theorem evaluate_refines_spec (cs : list Spec.Cell) :
  length cs = 9%nat ->
  board9 (of_cells cs)
  /\ lines = [ (0, 1, 2); (3, 4, 5); (6, 7, 8);
               (0, 3, 6); (1, 4, 7); (2, 5, 8);
               (0, 4, 8); (2, 4, 6) ]
  /\ evaluate (of_cells cs) = of_outcome (Spec.evaluate cs).
Proof.
  intros Hlen. split; [apply of_cells_board9, Hlen|]. split; [reflexivity|].
  unfold evaluate, calculateWinner, Spec.evaluate. cbv zeta.
  change lines with Spec.triples.
  rewrite scan_lines_of_cells by reflexivity.
  rewrite every_Boolean_of_cells.
  destruct (Spec.first_match Spec.triples cs) as [[p l]|]; simpl; [reflexivity|].
  destruct (forallb Spec.non_empty cs); reflexivity.
Qed.

(** The boards of the specification's win-detection examples. *)
Lemma evaluate_refines_spec_witness :
  evaluate (of_cells [Spec.Mark X; Spec.Mark X; Spec.Mark X;
                      Spec.Empty; Spec.Mark O; Spec.Mark O;
                      Spec.Empty; Spec.Empty; Spec.Empty])
  = Win (str X) (0, 1, 2)
  /\ evaluate (of_cells [Spec.Mark X; Spec.Mark O; Spec.Mark X;
                         Spec.Mark O; Spec.Mark X; Spec.Mark O;
                         Spec.Mark O; Spec.Mark X; Spec.Mark O])
     = Draw.
Proof.
  split.
  - exact (eq_trans
             (proj2 (proj2 (evaluate_refines_spec
                              [Spec.Mark X; Spec.Mark X; Spec.Mark X;
                               Spec.Empty; Spec.Mark O; Spec.Mark O;
                               Spec.Empty; Spec.Empty; Spec.Empty] eq_refl)))
             eq_refl).
  - exact (eq_trans
             (proj2 (proj2 (evaluate_refines_spec
                              [Spec.Mark X; Spec.Mark O; Spec.Mark X;
                               Spec.Mark O; Spec.Mark X; Spec.Mark O;
                               Spec.Mark O; Spec.Mark X; Spec.Mark O] eq_refl)))
             eq_refl).
Defined.

(** ** Renders and single clicks *)

Section Handlers.

Implicit Types (s : State) (b : JsArray) (i : Z).

Lemma hist_get_Some h k b :
  hist_get h k = Some b ->
  0 <= k < Z.of_nat (length h) /\ h !! Z.to_nat k = Some b.
Proof.
  unfold hist_get. destruct (Z.leb_spec 0 k) as [Hk | Hk]; [|discriminate].
  intros Hb. split; [|exact Hb]. apply lookup_lt_Some in Hb. lia.
Qed.

Lemma hist_get_in_range h k :
  0 <= k < Z.of_nat (length h) -> exists b, hist_get h k = Some b.
Proof.
  intros Hk. unfold hist_get.
  destruct (Z.leb_spec 0 k) as [_ | ?]; [|lia].
  apply lookup_lt_is_Some_2. lia.
Qed.

Lemma slice_to_next h k :
  0 <= k < Z.of_nat (length h) ->
  slice_to h (k + 1) = take (Z.to_nat k + 1) h.
Proof.
  intros Hk. unfold slice_to.
  destruct (Z.ltb_spec (k + 1) 0) as [? | _]; [lia|].
  f_equal. lia.
Qed.

Lemma render_Some s b :
  hist_get (history s) (stepNumber s) = Some b ->
  render s
  = Some (mkDerived b (calculateWinner b)
                    (negb (bool_decide (is_Some (calculateWinner b)))
                     && every_Boolean b)).
Proof. intros Hb. unfold render. rewrite Hb. reflexivity. Qed.

Lemma evaluate_InProgress b :
  evaluate b = InProgress -> calculateWinner b = None.
Proof.
  unfold evaluate, outcome_of. destruct (calculateWinner b); [discriminate | reflexivity].
Qed.

Lemma evaluate_terminal b :
  evaluate b <> InProgress ->
  is_Some (calculateWinner b) \/ every_Boolean b = true.
Proof.
  unfold evaluate, outcome_of. destruct (calculateWinner b) as [w|]; [eauto|].
  simpl. destruct (every_Boolean b); [eauto | congruence].
Qed.

(** A click that passes the guard: the history is cut after the current
    board and the marked copy is appended. *)
Lemma handleClick_accepts s b i :
  hist_get (history s) (stepNumber s) = Some b ->
  calculateWinner b = None ->
  Boolean (get b i) = false ->
  handleClick i s
  = Some (mkState (take (Z.to_nat (stepNumber s) + 1) (history s)
                   ++ [set (slice b) i (mark (xIsNext s))])
                  (stepNumber s + 1) (negb (xIsNext s)) (theme s)).
Proof.
  intros Hb Hw Hfree. unfold handleClick. rewrite (render_Some _ _ Hb). simpl.
  unfold handleClick_in. simpl. rewrite Hw, Hfree. simpl.
  apply hist_get_Some in Hb as [Hk Hb].
  rewrite slice_to_next by exact Hk.
  do 2 f_equal. rewrite length_app, length_take. simpl. lia.
Qed.

(** A click that the guard stops. *)
Lemma handleClick_ignores s b i :
  hist_get (history s) (stepNumber s) = Some b ->
  is_Some (calculateWinner b) \/ Boolean (get b i) = true ->
  handleClick i s = Some s.
Proof.
  intros Hb Hguard. unfold handleClick. rewrite (render_Some _ _ Hb). simpl.
  unfold handleClick_in. simpl.
  destruct Hguard as [Hw | Hocc].
  - rewrite (bool_decide_eq_true_2 _ Hw). reflexivity.
  - rewrite Hocc, orb_true_r. reflexivity.
Qed.

Lemma exec_Play i s : exec (Play i) s = handleClick i s.
Proof. reflexivity. Qed.

Lemma is_even_step_even k : is_even_step k = Z.even k.
Proof.
  unfold is_even_step.
  destruct (Z.even k) eqn:He.
  - apply Z.eqb_eq. apply Z.even_spec in He as [m ->].
    rewrite Z.mul_comm. apply Z.rem_mul. lia.
  - apply Z.eqb_neq. intros Hr.
    assert (Z.even k = true); [|congruence].
    apply Z.even_spec. exists (Z.quot k 2).
    pose proof (Z.quot_rem' k 2). lia.
Qed.

End Handlers.

(** ** The invariant holds in every reachable state *)

Section Invariant.

Implicit Types (s : State) (c : Command).

Lemma inv_init : inv init.
Proof.
  repeat split; simpl; try lia.
  - constructor; [apply empty_squares_board9 | constructor].
  - intros [|k] b b' _ Hb'; discriminate.
Qed.

Lemma inv_same_history s s' :
  inv s ->
  history s' = history s ->
  0 <= stepNumber s' < Z.of_nat (length (history s)) ->
  xIsNext s' = Z.even (stepNumber s') ->
  inv s'.
Proof.
  intros (_ & _ & Hb & Hadj) Hh Hk Hx. unfold inv. rewrite Hh. auto.
Qed.

Lemma inv_render s : inv s -> exists b,
    hist_get (history s) (stepNumber s) = Some b /\ board9 b.
Proof.
  intros (Hk & _ & Hb & _).
  destruct (hist_get_in_range _ _ Hk) as [b Hget]. exists b. split; [exact Hget|].
  apply hist_get_Some in Hget as [_ Hget].
  exact (proj1 (Forall_lookup _ _) Hb _ _ Hget).
Qed.

Lemma inv_click s i s' :
  inv s -> 0 <= i <= 8 -> handleClick i s = Some s' -> inv s'.
Proof.
  intros Hinv Hi Hclick.
  destruct (inv_render s Hinv) as (b & Hget & Hb9).
  destruct (calculateWinner b) as [w|] eqn:Hw.
  { rewrite (handleClick_ignores s b i Hget) in Hclick by (left; rewrite Hw; eauto).
    congruence. }
  destruct (Boolean (get b i)) eqn:Hocc.
  { rewrite (handleClick_ignores s b i Hget) in Hclick by (right; exact Hocc).
    congruence. }
  rewrite (handleClick_accepts s b i Hget Hw Hocc) in Hclick.
  injection Hclick as <-.
  destruct Hinv as (Hk & Hx & Hall & Hadj).
  pose proof (hist_get_Some _ _ _ Hget) as [_ Hlook].
  rewrite (slice_board9 b Hb9).
  assert (Hnull : get b i = null).
  { destruct (get_board9_in b i Hb9 Hi) as [? | [p Hp]]; [assumption|].
    rewrite Hp in Hocc. discriminate. }
  assert (Hlen : length (take (Z.to_nat (stepNumber s) + 1) (history s))
                 = (Z.to_nat (stepNumber s) + 1)%nat)
    by (rewrite length_take; lia).
  unfold inv. simpl. repeat split.
  - lia.
  - rewrite length_app, Hlen. simpl. lia.
  - rewrite Hx, Z.even_add. simpl.
    destruct (Z.even (stepNumber s)); reflexivity.
  - apply Forall_app. split; [apply Forall_take, Hall|].
    constructor; [|constructor]. apply set_board9; assumption.
  - intros k c c' Hc Hc'.
    destruct (Nat.lt_ge_cases (S k) (Z.to_nat (stepNumber s) + 1)) as [Hlt | Hge].
    + rewrite lookup_app_l in Hc by lia. rewrite lookup_app_l in Hc' by lia.
      rewrite lookup_take_lt in Hc by lia. rewrite lookup_take_lt in Hc' by lia.
      eapply Hadj; eassumption.
    + rewrite lookup_app_r in Hc' by lia. rewrite Hlen in Hc'.
      destruct (S k - (Z.to_nat (stepNumber s) + 1))%nat as [|m] eqn:Hm;
        [|destruct m; discriminate].
      simpl in Hc'. injection Hc' as <-.
      assert (k = Z.to_nat (stepNumber s)) as -> by lia.
      rewrite lookup_app_l in Hc by lia. rewrite lookup_take_lt in Hc by lia.
      rewrite Hlook in Hc. injection Hc as <-.
      exists i. split; [exact Hi|]. split; [exact Hnull|]. split.
      * rewrite get_set_eq. unfold mark, mover. rewrite Hx.
        rewrite Z2Nat.id by lia. reflexivity.
      * intros j Hj. apply get_set_ne, Hj.
Qed.

Lemma inv_exec s c s' : inv s -> legal s c -> exec c s = Some s' -> inv s'.
Proof.
  intros Hinv Hlegal Hexec.
  destruct c as [i | step | | | |].
  - rewrite exec_Play in Hexec. eapply inv_click; eassumption.
  - destruct (inv_render s Hinv) as (b & Hget & _).
    unfold exec in Hexec. rewrite (render_Some _ _ Hget) in Hexec.
    injection Hexec as <-. simpl in Hlegal.
    apply (inv_same_history s); simpl; auto using is_even_step_even. lia.
  - destruct (inv_render s Hinv) as (b & Hget & _).
    unfold exec in Hexec. rewrite (render_Some _ _ Hget) in Hexec.
    injection Hexec as <-. unfold handleUndo.
    destruct (Z.ltb_spec 0 (stepNumber s)); [|exact Hinv].
    destruct Hinv as (Hk & Hrest).
    apply (inv_same_history s); simpl; auto using is_even_step_even.
    + split; [exact Hk | exact Hrest].
    + lia.
  - destruct (inv_render s Hinv) as (b & Hget & _).
    unfold exec in Hexec. rewrite (render_Some _ _ Hget) in Hexec.
    injection Hexec as <-. unfold handleRedo.
    destruct (Z.ltb_spec (stepNumber s) (Z.of_nat (length (history s)) - 1));
      [|exact Hinv].
    destruct Hinv as (Hk & Hrest).
    apply (inv_same_history s); simpl; auto using is_even_step_even.
    + split; [exact Hk | exact Hrest].
    + lia.
  - destruct (inv_render s Hinv) as (b & Hget & _).
    unfold exec in Hexec. rewrite (render_Some _ _ Hget) in Hexec.
    injection Hexec as <-. exact inv_init.
  - destruct (inv_render s Hinv) as (b & Hget & _).
    unfold exec in Hexec. rewrite (render_Some _ _ Hget) in Hexec.
    injection Hexec as <-. destruct Hinv as (Hk & Hx & Hrest).
    apply (inv_same_history s); simpl; auto. split; [exact Hk|]. split; assumption.
Qed.

Lemma reachable_inv s : reachable s -> inv s.
Proof.
  induction 1 as [|s c s' _ IH Hlegal Hexec]; [apply inv_init|].
  eapply inv_exec; eassumption.
Qed.

(** In a reachable state every command runs: there is always a render. *)
Lemma reachable_exec_total s c : reachable s -> exists s', exec c s = Some s'.
Proof.
  intros Hr. destruct (inv_render s (reachable_inv s Hr)) as (b & Hget & _).
  unfold exec. rewrite (render_Some _ _ Hget). simpl. eauto.
Qed.

End Invariant.

(** ** Properties of [handleClick] *)

Section Clicks.

Implicit Types (s : State) (b : JsArray) (i : Z).

(** A cell that reads [null] is an element of the array. *)
Lemma get_null_index b i :
  get b i = null -> is_index i = true /\ i < arr_length b.
Proof.
  unfold get, arr_length. destruct (is_index i) eqn:Hi.
  - intros Hnull. split; [reflexivity|].
    apply andb_true_iff in Hi as [H0 _]. apply Z.leb_le in H0.
    destruct (elems b !! Z.to_nat i) eqn:Hl; [|discriminate].
    apply lookup_lt_Some in Hl. lia.
  - destruct (props b !! i); discriminate.
Qed.

Lemma set_in_range_length b i p :
  is_index i = true -> i < arr_length b -> arr_length (set b i p) = arr_length b.
Proof.
  intros Hi Hlt. unfold set. rewrite Hi.
  destruct (Z.ltb_spec i (arr_length b)); [|lia].
  unfold arr_length. simpl. rewrite length_insert. reflexivity.
Qed.

Lemma in_grid i :
  0 <= i <= 8 ->
  i = 0 \/ i = 1 \/ i = 2 \/ i = 3 \/ i = 4 \/ i = 5 \/ i = 6 \/ i = 7 \/ i = 8.
Proof. lia. Qed.

Lemma run_plays_noop s (cells : list Z) :
  (forall i, In i cells -> handleClick i s = Some s) ->
  run (map Play cells) s = Some s.
Proof.
  induction cells as [|i cells IH]; intros Hall; [reflexivity|].
  simpl. rewrite exec_Play, (Hall i) by (left; reflexivity). simpl.
  apply IH. intros j Hj. apply Hall. right. exact Hj.
Qed.

End Clicks.

(** C1. In a state whose current board is InProgress and whose target cell is
    Empty, a click cuts the history after the current board and appends that
    board with the target cell marked by the mover (X iff the cursor is
    even); the cursor becomes the last index of the new history.  In
    particular, from a fresh engine, play, play, undo, play on a third cell
    leaves a history of three boards, without the alternate second move. *)
Theorem play_appends :
  (forall (s : State) (b : JsArray) (i : Z),
      hist_get (history s) (stepNumber s) = Some b ->
      xIsNext s = Z.even (stepNumber s) ->
      evaluate b = InProgress ->
      get b i = null ->
      exists b' h',
        h' = take (Z.to_nat (stepNumber s) + 1) (history s) ++ [b']
        /\ handleClick i s
           = Some (mkState h' (Z.of_nat (length h') - 1) (negb (xIsNext s)) (theme s))
        /\ Z.of_nat (length h') - 1 = stepNumber s + 1
        /\ get b' i = str (mover (stepNumber s))
        /\ arr_length b' = arr_length b
        /\ forall j, is_index j = true -> j <> i -> get b' j = get b j)
  /\ (forall a b c : Z,
         0 <= a <= 8 -> 0 <= b <= 8 -> 0 <= c <= 8 ->
         a <> b -> c <> a -> c <> b ->
         exists s',
           run [Play a; Play b; Undo; Play c] init = Some s'
           /\ length (history s') = 3%nat
           /\ history s' = [ empty_squares;
                             set empty_squares a X;
                             set (set empty_squares a X) c O ]
           /\ stepNumber s' = 2).
Proof.
  split.
  - intros s b i Hget Hx Hprog Hnull.
    exists (set (slice b) i (mark (xIsNext s))). eexists. split; [reflexivity|].
    pose proof (hist_get_Some _ _ _ Hget) as [Hk _].
    destruct (get_null_index b i Hnull) as [Hi Hlt].
    assert (Hlen : Z.of_nat (length (take (Z.to_nat (stepNumber s) + 1) (history s)
                                     ++ [set (slice b) i (mark (xIsNext s))])) - 1
                   = stepNumber s + 1).
    { rewrite length_app, length_take. simpl. lia. }
    split; [|split; [exact Hlen|]].
    + rewrite Hlen. apply handleClick_accepts.
      * exact Hget.
      * apply evaluate_InProgress, Hprog.
      * rewrite Hnull. reflexivity.
    + split; [|split].
      * rewrite get_set_eq. unfold mark, mover. rewrite Hx. reflexivity.
      * apply (set_in_range_length (slice b)); assumption.
      * intros j Hj Hne. rewrite get_set_ne by exact Hne. apply get_slice, Hj.
  - intros a b c Ha Hb Hc Hab Hca Hcb.
    apply in_grid in Ha, Hb, Hc.
    destruct Ha as [-> | [-> | [-> | [-> | [-> | [-> | [-> | [-> | ->]]]]]]]];
      destruct Hb as [-> | [-> | [-> | [-> | [-> | [-> | [-> | [-> | ->]]]]]]]];
      try (exfalso; apply Hab; reflexivity);
      destruct Hc as [-> | [-> | [-> | [-> | [-> | [-> | [-> | [-> | ->]]]]]]]];
      try (exfalso; apply Hca; reflexivity);
      try (exfalso; apply Hcb; reflexivity);
      (eexists; split; [vm_compute; reflexivity | repeat split]).
Qed.

Lemma play_appends_witness :
  (exists b' h',
      h' = [empty_squares; b']
      /\ handleClick 4 init = Some (mkState h' 1 false "light")
      /\ get b' 4 = str X)
  /\ length (history (default init (run [Play 0; Play 1; Undo; Play 2] init))) = 3%nat.
Proof.
  split.
  - destruct (proj1 play_appends init empty_squares 4 eq_refl eq_refl eq_refl eq_refl)
      as (b' & h' & Hh & Hclick & _ & Hmark & _).
    exists b', h'. subst h'. repeat split; assumption.
  - destruct (proj2 play_appends 0 1 2) as (s' & Hrun & Hlen & _); try lia.
    rewrite Hrun. exact Hlen.
Defined.

(** C3, as the code has it. A click on a cell of the grid is a no-op (the
    whole state, hence history, cursor and turn, is unchanged) whenever the
    current board has a terminal outcome (Win or Draw) or the target cell is
    not Empty; so while the cursor stays on a terminal board no sequence of
    clicks changes the state. *)
Theorem play_noop (s : State) (b : JsArray) (i : Z) :
  hist_get (history s) (stepNumber s) = Some b ->
  board9 b ->
  0 <= i <= 8 ->
  evaluate b <> InProgress \/ get b i <> null ->
  handleClick i s = Some s
  /\ (evaluate b <> InProgress ->
      forall cells : list Z,
        Forall (fun j => 0 <= j <= 8) cells -> run (map Play cells) s = Some s).
Proof.
  intros Hget Hb9 Hi Hguard.
  assert (Hterm : evaluate b <> InProgress ->
                  forall j, 0 <= j <= 8 -> handleClick j s = Some s).
  { intros Ht j Hj. apply (handleClick_ignores s b j Hget).
    destruct (evaluate_terminal b Ht) as [Hw | Hfull]; [left; exact Hw|].
    right. apply every_Boolean_board9; assumption. }
  split.
  - destruct Hguard as [Ht | Hocc]; [apply Hterm; assumption|].
    apply (handleClick_ignores s b i Hget). right.
    destruct (get_board9_in b i Hb9 Hi) as [Hnull | [p Hp]]; [contradiction|].
    rewrite Hp. reflexivity.
  - intros Ht cells Hcells. apply run_plays_noop.
    intros j Hj. apply Hterm; [exact Ht|].
    rewrite Forall_forall in Hcells. apply Hcells, list_elem_of_In, Hj.
Qed.

(** The end of the specification's scenario: X has completed the top row,
    and a click on cell 5 changes nothing. *)
Lemma play_noop_witness :
  exists s b,
    run [Play 0; Play 4; Play 1; Play 3; Play 2] init = Some s
    /\ hist_get (history s) (stepNumber s) = Some b
    /\ evaluate b = Win (str X) (0, 1, 2)
    /\ handleClick 5 s = Some s
    /\ run (map Play [5; 6; 7]) s = Some s.
Proof.
  eexists. eexists.
  split; [vm_compute; reflexivity|].
  split; [vm_compute; reflexivity|].
  split; [vm_compute; reflexivity|].
  match goal with
  | |- handleClick 5 ?s = _ /\ _ =>
      destruct (play_noop s
                  (of_cells [Spec.Mark X; Spec.Mark X; Spec.Mark X;
                             Spec.Mark O; Spec.Mark O; Spec.Empty;
                             Spec.Empty; Spec.Empty; Spec.Empty]) 5)
        as [Hclick Hseq]
  end.
  - reflexivity.
  - apply of_cells_board9. reflexivity.
  - lia.
  - left. vm_compute. discriminate.
  - split; [exact Hclick|]. apply Hseq.
    + vm_compute. discriminate.
    + repeat constructor; lia.
Defined.

(** C3 fails as stated: the history can change again after a win without
    any reset.  After the specification's winning run, Undo moves the cursor
    to the board before the winning move, which is InProgress, and a click
    on cell 8 is then accepted: it replaces the last entry of the history. *)
Lemma play_after_undo_rewrites_history :
  exists s b s',
    run [Play 0; Play 4; Play 1; Play 3; Play 2] init = Some s
    /\ hist_get (history s) (stepNumber s) = Some b
    /\ evaluate b = Win (str X) (0, 1, 2)
    /\ run [Undo; Play 8] s = Some s'
    /\ length (history s') = length (history s)
    /\ hist_get (history s') 5 <> hist_get (history s) 5
    /\ history s' <> history s.
Proof.
  eexists. eexists. eexists.
  split; [vm_compute; reflexivity|].
  split; [vm_compute; reflexivity|].
  split; [vm_compute; reflexivity|].
  split; [vm_compute; reflexivity|].
  split; [reflexivity|].
  assert (Hentry : forall h h' : list JsArray,
             hist_get h' 5 <> hist_get h 5 -> hist_get h' 5 <> hist_get h 5 /\ h' <> h).
  { intros h h' Hne. split; [exact Hne|]. intros ->. apply Hne. reflexivity. }
  apply Hentry. vm_compute. discriminate.
Qed.

(** C10. On a board of the grid that is InProgress, a click with a cell index
    outside 0..8 is not ignored: the position reads [undefined], so a new
    entry is appended to the history, the cursor advances and the turn
    toggles, while the nine cells of the new entry are those of the previous
    board; the mark is stored outside the grid. *)
Theorem play_outside_grid (s : State) (b : JsArray) (i : Z) :
  hist_get (history s) (stepNumber s) = Some b ->
  board9 b ->
  evaluate b = InProgress ->
  i < 0 \/ 8 < i ->
  get b i = undefined
  /\ exists b',
      handleClick i s
      = Some (mkState (take (Z.to_nat (stepNumber s) + 1) (history s) ++ [b'])
                      (stepNumber s + 1) (negb (xIsNext s)) (theme s))
      /\ Z.of_nat (length (take (Z.to_nat (stepNumber s) + 1) (history s) ++ [b']))
         = stepNumber s + 2
      /\ (forall j, 0 <= j <= 8 -> get b' j = get b j)
      /\ get b' i = str (mark (xIsNext s))
      /\ ~ board9 b'.
Proof.
  intros Hget Hb9 Hprog Hout.
  pose proof (get_board9_out b i Hb9 Hout) as Hundef.
  split; [exact Hundef|].
  exists (set (slice b) i (mark (xIsNext s))).
  pose proof (hist_get_Some _ _ _ Hget) as [Hk _].
  split; [|split; [|split; [|split]]].
  - apply handleClick_accepts.
    + exact Hget.
    + apply evaluate_InProgress, Hprog.
    + rewrite Hundef. reflexivity.
  - rewrite length_app, length_take. simpl. lia.
  - intros j Hj. rewrite get_set_ne by lia. rewrite (slice_board9 b Hb9). reflexivity.
  - apply get_set_eq.
  - intros Hb9'. pose proof (get_board9_out _ i Hb9' Hout) as Hundef'.
    rewrite get_set_eq in Hundef'. discriminate.
Qed.

Lemma play_outside_grid_witness :
  (exists b',
      handleClick 9 init = Some (mkState [empty_squares; b'] 1 false "light")
      /\ get b' 9 = str X)
  /\ (exists b',
      handleClick (-1) init = Some (mkState [empty_squares; b'] 1 false "light")
      /\ get b' (-1) = str X).
Proof.
  split.
  - destruct (play_outside_grid init empty_squares 9 eq_refl empty_squares_board9
                                eq_refl ltac:(lia))
      as (_ & b' & Hclick & _ & _ & Hmark & _).
    exists b'. split; [exact Hclick | exact Hmark].
  - destruct (play_outside_grid init empty_squares (-1) eq_refl empty_squares_board9
                                eq_refl ltac:(lia))
      as (_ & b' & Hclick & _ & _ & Hmark & _).
    exists b'. split; [exact Hclick | exact Hmark].
Defined.

(** ** Invariants of the reachable states *)

(** C4. Turn parity: in every state reachable from the initial one by clicks
    on the grid, undo, redo, reset and jumps to a step of the history, the
    stored turn flag [xIsNext] is true (X moves) iff the cursor is even. *)
Theorem turn_parity (s : State) :
  reachable s ->
  xIsNext s = Z.even (stepNumber s)
  /\ (xIsNext s = true <-> Z.rem (stepNumber s) 2 = 0).
Proof.
  intros Hr. destruct (reachable_inv s Hr) as (_ & Hx & _).
  split; [exact Hx|].
  rewrite Hx, <- is_even_step_even. unfold is_even_step. apply Z.eqb_eq.
Qed.

Lemma turn_parity_witness :
  exists s,
    run [Play 0; Play 4; Undo; JumpTo 2; Play 8] init = Some s
    /\ stepNumber s = 3
    /\ xIsNext s = Z.even (stepNumber s).
Proof.
  eexists. split; [vm_compute; reflexivity|]. split; [reflexivity|].
  refine (proj1 (turn_parity _ _)).
  eapply reach_step with (c := Play 8);
    [eapply reach_step with (c := JumpTo 2);
     [eapply reach_step with (c := Undo);
      [eapply reach_step with (c := Play 4);
       [eapply reach_step with (c := Play 0);
        [apply reach_init | simpl; lia | vm_compute; reflexivity]
       | simpl; lia | vm_compute; reflexivity]
      | exact I | vm_compute; reflexivity]
     | simpl; lia | vm_compute; reflexivity]
    | simpl; lia | vm_compute; reflexivity].
Defined.

(** C5. In every reachable state, for every [k] with
    [0 <= k < len(history) - 1], the entries [k] and [k+1] of the history are
    boards that differ in exactly one cell, Empty in the first and marked by
    the mover of step [k] (X iff [k] is even) in the second. *)
Theorem history_one_move (s : State) (k : Z) :
  reachable s ->
  0 <= k < Z.of_nat (length (history s)) - 1 ->
  exists b b' i,
    hist_get (history s) k = Some b
    /\ hist_get (history s) (k + 1) = Some b'
    /\ board9 b /\ board9 b'
    /\ 0 <= i <= 8
    /\ get b i = null
    /\ get b' i = str (if Z.even k then X else O)
    /\ forall j, j <> i -> get b' j = get b j.
Proof.
  intros Hr Hk. destruct (reachable_inv s Hr) as (_ & _ & Hall & Hadj).
  destruct (hist_get_in_range (history s) k) as [b Hb]; [lia|].
  destruct (hist_get_in_range (history s) (k + 1)) as [b' Hb']; [lia|].
  pose proof (hist_get_Some _ _ _ Hb) as [_ Hl].
  pose proof (hist_get_Some _ _ _ Hb') as [_ Hl'].
  replace (Z.to_nat (k + 1)) with (S (Z.to_nat k)) in Hl' by lia.
  destruct (Hadj _ _ _ Hl Hl') as (i & Hi & Hnull & Hmark & Hrest).
  exists b, b', i. unfold mover in Hmark. rewrite Z2Nat.id in Hmark by lia.
  pose proof (proj1 (Forall_lookup _ _) Hall _ _ Hl) as Hb9.
  pose proof (proj1 (Forall_lookup _ _) Hall _ _ Hl') as Hb9'.
  tauto.
Qed.

Lemma history_one_move_witness :
  exists s b b' i,
    run [Play 0; Play 4; Undo] init = Some s
    /\ hist_get (history s) 1 = Some b
    /\ hist_get (history s) 2 = Some b'
    /\ get b i = null /\ get b' i = str O.
Proof.
  eexists.
  assert (Hrun : run [Play 0; Play 4; Undo] init = Some _)
    by (vm_compute; reflexivity).
  match type of Hrun with
  | _ = Some ?s =>
      destruct (history_one_move s 1) as (b & b' & i & Hb & Hb' & _ & _ & _ & Hn & Hm & _)
  end.
  - eapply reach_step with (c := Undo);
      [eapply reach_step with (c := Play 4);
       [eapply reach_step with (c := Play 0);
        [apply reach_init | simpl; lia | vm_compute; reflexivity]
       | simpl; lia | vm_compute; reflexivity]
      | exact I | vm_compute; reflexivity].
  - simpl. lia.
  - exists b, b', i. repeat split; assumption.
Defined.

(** ** Undo, redo, reset and jumps *)

(** C6. Undo is [jumpTo(cursor - 1)] when the cursor is positive and a no-op
    otherwise; redo is [jumpTo(cursor + 1)] when the cursor is below the last
    index and a no-op otherwise; neither changes the history. *)
Theorem undo_redo_jump (s : State) :
  (0 < stepNumber s -> handleUndo s = jumpTo (stepNumber s - 1) s)
  /\ (stepNumber s <= 0 -> handleUndo s = s)
  /\ (stepNumber s < Z.of_nat (length (history s)) - 1 ->
      handleRedo s = jumpTo (stepNumber s + 1) s)
  /\ (Z.of_nat (length (history s)) - 1 <= stepNumber s -> handleRedo s = s)
  /\ history (handleUndo s) = history s
  /\ history (handleRedo s) = history s.
Proof.
  unfold handleUndo, handleRedo, jumpTo.
  destruct (Z.ltb_spec 0 (stepNumber s));
    destruct (Z.ltb_spec (stepNumber s) (Z.of_nat (length (history s)) - 1));
    repeat split; intros; try reflexivity; lia.
Qed.

Lemma undo_redo_jump_witness :
  let s1 := mkState [empty_squares; set empty_squares 4 X] 1 false "light" in
  let s0 := mkState [empty_squares; set empty_squares 4 X] 0 true "light" in
  handleUndo s1 = jumpTo 0 s1
  /\ handleUndo s0 = s0
  /\ handleRedo s0 = jumpTo 1 s0
  /\ handleRedo s1 = s1.
Proof.
  intros s1 s0.
  destruct (undo_redo_jump s1) as (Hu1 & _ & _ & Hr1 & _).
  destruct (undo_redo_jump s0) as (_ & Hu0 & Hr0 & _).
  split; [apply Hu1; simpl; lia|].
  split; [apply Hu0; simpl; lia|].
  split; [apply Hr0; simpl; lia|].
  apply Hr1; simpl; lia.
Defined.

(** C7. Whatever the state, reset gives the initial game state: the history
    is the single all-Empty board, the cursor is 0 and X is to move. *)
Theorem reset_initial (s : State) :
  history (handleReset s) = [of_cells (replicate 9 Spec.Empty)]
  /\ stepNumber (handleReset s) = 0
  /\ xIsNext (handleReset s) = true
  /\ game (handleReset s) = game init
  /\ theme (handleReset s) = theme s.
Proof. repeat split. Qed.

(** C8, as the code has it. [jumpTo] neither clamps nor rejects: for every
    state and every integer step it sets the cursor to that step and leaves
    the history unchanged, so the cursor is within the history afterwards
    exactly when the step was. *)
Theorem jumpTo_sets_cursor (s : State) (step : Z) :
  stepNumber (jumpTo step s) = step
  /\ history (jumpTo step s) = history s
  /\ xIsNext (jumpTo step s) = Z.even step
  /\ (0 <= stepNumber (jumpTo step s) <= Z.of_nat (length (history (jumpTo step s))) - 1
      <-> 0 <= step <= Z.of_nat (length (history s)) - 1).
Proof.
  unfold jumpTo. simpl. repeat split; try apply is_even_step_even; tauto.
Qed.

(** C8 fails as stated: a jump to step 5 of a fresh engine, whose history has
    one entry, leaves the cursor at 5, and the next render has no board. *)
Lemma jumpTo_out_of_range :
  (5 < 0 \/ Z.of_nat (length (history init)) - 1 < 5)
  /\ stepNumber (jumpTo 5 init) = 5
  /\ ~ (0 <= stepNumber (jumpTo 5 init)
        <= Z.of_nat (length (history (jumpTo 5 init))) - 1)
  /\ render (jumpTo 5 init) = None.
Proof.
  split; [right; simpl; lia|]. split; [reflexivity|].
  split; [simpl; lia | reflexivity].
Qed.

(** ** The theme does not interfere with the game *)

Section Theme.

Implicit Types (s : State) (c : Command) (cs : list Command).

Lemma render_game s1 s2 : game s1 = game s2 -> render s1 = render s2.
Proof.
  unfold game, render. intros Hg. injection Hg as Hh Hk _.
  rewrite Hh, Hk. reflexivity.
Qed.

Lemma exec_game c s1 s2 s1' :
  game s1 = game s2 -> is_game c = true -> exec c s1 = Some s1' ->
  exists s2', exec c s2 = Some s2' /\ game s2' = game s1'.
Proof.
  intros Hg Hc. unfold exec. rewrite (render_game s1 s2 Hg).
  destruct (render s2) as [d|]; simpl; [|discriminate].
  intros Hs1. injection Hs1 as <-. eexists. split; [reflexivity|].
  unfold game in Hg. injection Hg as Hh Hk Hx.
  destruct c; try discriminate; unfold game; simpl.
  - unfold handleClick_in. rewrite ?Hh, ?Hk, ?Hx.
    destruct (bool_decide _ || Boolean _); simpl; congruence.
  - congruence.
  - unfold handleUndo. rewrite ?Hh, ?Hk, ?Hx.
    destruct (0 <? stepNumber s2); simpl; congruence.
  - unfold handleRedo. rewrite ?Hh, ?Hk, ?Hx.
    destruct (stepNumber s2 <? _); simpl; congruence.
  - reflexivity.
Qed.

Lemma exec_toggle s s' : exec ToggleTheme s = Some s' -> game s' = game s.
Proof.
  unfold exec. destruct (render s); simpl; [|discriminate].
  intros Hs. injection Hs as <-. reflexivity.
Qed.

(** A run is, on the game part, the run of its game commands. *)
Lemma run_game_commands cs s1 s2 s1' :
  game s1 = game s2 -> run cs s1 = Some s1' ->
  exists s2', run (List.filter is_game cs) s2 = Some s2' /\ game s2' = game s1'.
Proof.
  revert s1 s2. induction cs as [|c cs IH]; intros s1 s2 Hg Hrun.
  - injection Hrun as <-. exists s2. split; [reflexivity | congruence].
  - simpl in Hrun. destruct (exec c s1) as [t1|] eqn:He; [|discriminate].
    simpl in Hrun. simpl. destruct (is_game c) eqn:Hc.
    + destruct (exec_game c s1 s2 t1 Hg Hc He) as (t2 & He2 & Hg2).
      simpl. rewrite He2. simpl. apply (IH t1 t2); [congruence | exact Hrun].
    + destruct c; try discriminate.
      apply (IH t1 s2); [|exact Hrun].
      rewrite (exec_toggle s1 t1 He). exact Hg.
Qed.

End Theme.

(** C9. Two runs that issue the same game commands, with any theme toggles
    in between and any initial themes, end in the same game state: same
    history, cursor and turn, and the same render (current board, winner and
    winning line, draw). *)
Theorem theme_noninterference (cs1 cs2 : list Command) (s1 s2 s1' s2' : State) :
  game s1 = game s2 ->
  List.filter is_game cs1 = List.filter is_game cs2 ->
  run cs1 s1 = Some s1' ->
  run cs2 s2 = Some s2' ->
  game s1' = game s2'
  /\ render s1' = render s2'
  /\ (evaluate <$> hist_get (history s1') (stepNumber s1'))
     = (evaluate <$> hist_get (history s2') (stepNumber s2')).
Proof.
  intros Hg Hcs Hr1 Hr2.
  destruct (run_game_commands cs1 s1 s1 s1' eq_refl Hr1) as (t1 & Ht1 & Hg1).
  destruct (run_game_commands cs2 s2 s1 s2' (eq_sym Hg) Hr2) as (t2 & Ht2 & Hg2).
  rewrite Hcs, Ht2 in Ht1. injection Ht1 as ->.
  assert (Hgame : game s1' = game s2') by congruence.
  split; [exact Hgame|]. split; [apply render_game, Hgame|].
  unfold game in Hgame. injection Hgame as -> -> _. reflexivity.
Qed.

Lemma theme_noninterference_witness :
  exists s1' s2',
    run [ToggleTheme; Play 0; ToggleTheme; Play 4; ToggleTheme; Undo] init = Some s1'
    /\ run [Play 0; Play 4; ToggleTheme; Undo]
           (mkState [empty_squares] 0 true "dark") = Some s2'
    /\ theme s1' = "dark"%string /\ theme s2' = "light"%string
    /\ game s1' = game s2'.
Proof.
  eexists. eexists.
  split; [vm_compute; reflexivity|].
  split; [vm_compute; reflexivity|].
  split; [reflexivity|]. split; [reflexivity|].
  refine (proj1 (theme_noninterference
                   [ToggleTheme; Play 0; ToggleTheme; Play 4; ToggleTheme; Undo]
                   [Play 0; Play 4; ToggleTheme; Undo]
                   init (mkState [empty_squares] 0 true "dark") _ _
                   eq_refl eq_refl _ _));
    vm_compute; reflexivity.
Defined.

(** ** calculateWinner on any array *)

Section Winner.

Implicit Types (squares : JsArray) (l : Line) (p : Player).

Lemma line_hit_true squares l :
  line_hit squares l = true ->
  exists p, holds_line squares p l /\ get squares (fst (fst l)) = str p.
Proof.
  destruct l as [[a b] c]. unfold line_hit, holds_line, strict_eq. simpl.
  intros H. apply andb_true_iff in H as [H Hc]. apply andb_true_iff in H as [Ha Hb].
  apply bool_decide_eq_true in Hb, Hc.
  destruct (get squares a) as [| |p] eqn:Hga; try discriminate.
  exists p. auto.
Qed.

Lemma line_hit_false squares l p :
  line_hit squares l = false -> ~ holds_line squares p l.
Proof.
  destruct l as [[a b] c]. unfold line_hit, holds_line, strict_eq.
  intros H (Ha & Hb & Hc). rewrite Ha, Hb, Hc in H. simpl in H.
  rewrite bool_decide_eq_true_2 in H by reflexivity. discriminate.
Qed.

Lemma scan_lines_Some ls squares w :
  scan_lines ls squares = Some w ->
  exists pre post,
    ls = pre ++ line w :: post
    /\ (forall l, In l pre -> line_hit squares l = false)
    /\ line_hit squares (line w) = true
    /\ winner w = get squares (fst (fst (line w))).
Proof.
  induction ls as [|l ls IH]; simpl; [discriminate|].
  destruct (line_hit squares l) eqn:Hl.
  - intros Hw. injection Hw as <-. exists [], ls. simpl. tauto.
  - intros Hw. destruct (IH Hw) as (pre & post & -> & Hpre & Hhit & Hwin).
    exists (l :: pre), post. repeat split; try assumption.
    intros l' [<- | Hin]; auto.
Qed.

Lemma scan_lines_None ls squares :
  scan_lines ls squares = None -> forall l, In l ls -> line_hit squares l = false.
Proof.
  induction ls as [|l ls IH]; simpl; [tauto|].
  destruct (line_hit squares l) eqn:Hl; [discriminate|].
  intros Hn l' [<- | Hin]; auto.
Qed.

Lemma calculateWinner_Some squares w :
  calculateWinner squares = Some w ->
  exists p, winner w = str p /\ In (line w) lines /\ holds_line squares p (line w).
Proof.
  intros Hw. apply scan_lines_Some in Hw as (pre & post & Hls & _ & Hhit & Hwin).
  destruct (line_hit_true _ _ Hhit) as (p & Hp & Hfst).
  exists p. split; [congruence|]. split; [|exact Hp].
  fold lines in Hls. rewrite Hls. apply in_or_app. right. left. reflexivity.
Qed.

Lemma calculateWinner_None squares p l :
  calculateWinner squares = None -> In l lines -> ~ holds_line squares p l.
Proof.
  intros Hn Hin. apply line_hit_false. exact (scan_lines_None _ _ Hn l Hin).
Qed.

Lemma in_lines l :
  In l lines ->
  l = (0, 1, 2) \/ l = (3, 4, 5) \/ l = (6, 7, 8) \/ l = (0, 3, 6)
  \/ l = (1, 4, 7) \/ l = (2, 5, 8) \/ l = (0, 4, 8) \/ l = (2, 4, 6).
Proof. simpl. intuition (subst; auto). Qed.

End Winner.

(** On any array, also one with holes or extra cells: a winner reported by
    [calculateWinner] is a mark that fills the reported line, that line is
    the first of the eight, in order, that some mark fills; no winner is
    reported exactly when no mark fills any of the eight lines. *)
Theorem calculateWinner_first_filled_line (squares : JsArray) :
  match calculateWinner squares with
  | Some w =>
      exists p pre post,
        winner w = str p
        /\ lines = pre ++ line w :: post
        /\ holds_line squares p (line w)
        /\ forall l q, In l pre -> ~ holds_line squares q l
  | None => forall l q, In l lines -> ~ holds_line squares q l
  end.
Proof.
  destruct (calculateWinner squares) as [w|] eqn:Hw.
  - pose proof Hw as Hscan.
    apply scan_lines_Some in Hscan as (pre & post & Hls & Hpre & Hhit & Hwin).
    destruct (line_hit_true _ _ Hhit) as (p & Hp & Hfst).
    exists p, pre, post. repeat split; try assumption; [congruence|].
    intros l q Hin. apply line_hit_false, Hpre, Hin.
  - intros l q Hin. apply calculateWinner_None; assumption.
Qed.

(** ** The squares of the board *)

Section Squares.

Implicit Types (squares : JsArray) (wl : option Line) (i : Z).

Lemma Board_cells squares wl :
  concat (Board squares wl) = map (renderSquare squares wl) grid.
Proof. reflexivity. Qed.

Lemma Board_cell_in squares wl i sq :
  In (i, sq) (concat (Board squares wl)) ->
  0 <= i <= 8 /\ sq = Square (get squares i) (isWinningSquare wl i).
Proof.
  rewrite Board_cells. intros Hin. apply in_map_iff in Hin as (j & Heq & Hj).
  unfold renderSquare in Heq. injection Heq as -> <-.
  split; [|reflexivity]. simpl in Hj. lia.
Qed.

Lemma line_includes_holds squares p l i :
  holds_line squares p l -> line_includes l i = true -> get squares i = str p.
Proof.
  destruct l as [[a b] c]. unfold holds_line, line_includes.
  intros (Ha & Hb & Hc) H.
  apply orb_true_iff in H as [H | H]; [apply orb_true_iff in H as [H | H]|];
    apply Z.eqb_eq in H; subst i; assumption.
Qed.

End Squares.

(** [Board] renders one square per cell 0..8, in row-major order, each
    showing that cell, clicking with its own index, and disabled iff the
    cell is occupied.  With a winner, the highlighted squares are exactly the
    three cells of the winning line and each shows the winner's mark;
    without a winner no square is highlighted. *)
Theorem board_squares (squares : JsArray) :
  let cells := concat (Board squares (line <$> calculateWinner squares)) in
  map fst cells = [0; 1; 2; 3; 4; 5; 6; 7; 8]
  /\ (forall i sq, In (i, sq) cells ->
        sq_text sq = get squares i /\ sq_disabled sq = Boolean (get squares i))
  /\ match calculateWinner squares with
     | Some w =>
         (forall i sq, In (i, sq) cells ->
            (sq_highlight sq = true <-> line_includes (line w) i = true)
            /\ (sq_highlight sq = true -> sq_text sq = winner w))
         /\ length (List.filter (fun c => sq_highlight (snd c)) cells) = 3%nat
     | None => forall i sq, In (i, sq) cells -> sq_highlight sq = false
     end.
Proof.
  intros cells. split; [reflexivity|]. split.
  - intros i sq Hin. apply Board_cell_in in Hin as [_ ->]. split; reflexivity.
  - subst cells. destruct (calculateWinner squares) as [w|] eqn:Hw; simpl.
    + destruct (calculateWinner_Some _ _ Hw) as (p & Hp & Hin & Hline).
      split.
      * intros i sq Hc. apply Board_cell_in in Hc as [_ ->]. simpl.
        split; [reflexivity|]. intros Hi. rewrite Hp.
        eapply line_includes_holds; eassumption.
      * apply in_lines in Hin.
        destruct Hin as [-> | [-> | [-> | [-> | [-> | [-> | [-> | ->]]]]]]];
          reflexivity.
    + intros i sq Hc. apply Board_cell_in in Hc as [_ ->]. reflexivity.
Qed.

(** A click changes the state exactly when there is no winner and the square
    clicked is not disabled; a click on a disabled square, or after a win,
    returns the state as it is. *)
Theorem click_changes_iff_enabled (s : State) (b : JsArray) (i : Z) :
  hist_get (history s) (stepNumber s) = Some b ->
  exists s',
    handleClick i s = Some s'
    /\ (s' = s <->
        is_Some (calculateWinner b)
        \/ sq_disabled (snd (renderSquare b (line <$> calculateWinner b) i)) = true).
Proof.
  intros Hget. simpl.
  destruct (calculateWinner b) as [w|] eqn:Hw.
  { exists s. split; [|split; eauto].
    apply (handleClick_ignores s b i Hget). left. rewrite Hw. eauto. }
  destruct (Boolean (get b i)) eqn:Hocc.
  { exists s. split; [|split; eauto].
    apply (handleClick_ignores s b i Hget). right. exact Hocc. }
  eexists. split; [apply (handleClick_accepts s b i Hget Hw Hocc)|].
  split.
  - intros Heq. apply (f_equal stepNumber) in Heq. simpl in Heq. lia.
  - intros [[w Hsome] | Hd]; discriminate.
Qed.

Lemma click_changes_iff_enabled_witness :
  exists s',
    handleClick 4 init = Some s'
    /\ s' <> init.
Proof.
  destruct (click_changes_iff_enabled init empty_squares 4 eq_refl)
    as (s' & Hclick & Hiff).
  exists s'. split; [exact Hclick|].
  intros Heq. apply Hiff in Heq as [[w Hw] | Hd]; discriminate.
Defined.

(** ** Further invariants of the reachable states *)

Section GameInvariant.

Implicit Types (s : State) (c : Command) (b : JsArray) (p q : Player).

Lemma inv_game_init : inv_game init.
Proof.
  repeat split; simpl; auto.
  intros k b _ Hk. simpl in Hk. lia.
Qed.

Lemma inv_game_same_history s s' :
  inv_game s -> history s' = history s -> theme s' = theme s -> inv_game s'.
Proof. unfold inv_game. intros H -> ->. exact H. Qed.

Lemma inv_game_click s i s' :
  inv_game s -> handleClick i s = Some s' -> inv_game s'.
Proof.
  intros Hinv Hclick. unfold handleClick in Hclick.
  destruct (hist_get (history s) (stepNumber s)) as [b|] eqn:Hget;
    [|unfold render in Hclick; rewrite Hget in Hclick; discriminate].
  fold (handleClick i s) in Hclick.
  destruct (calculateWinner b) as [w|] eqn:Hw.
  { rewrite (handleClick_ignores s b i Hget) in Hclick by (left; rewrite Hw; eauto).
    congruence. }
  destruct (Boolean (get b i)) eqn:Hocc.
  { rewrite (handleClick_ignores s b i Hget) in Hclick by (right; exact Hocc).
    congruence. }
  rewrite (handleClick_accepts s b i Hget Hw Hocc) in Hclick.
  injection Hclick as <-.
  destruct Hinv as (H0 & Hlast & Hth).
  pose proof (hist_get_Some _ _ _ Hget) as [Hk Hlook].
  assert (Hlen : length (take (Z.to_nat (stepNumber s) + 1) (history s))
                 = (Z.to_nat (stepNumber s) + 1)%nat)
    by (rewrite length_take; lia).
  unfold inv_game. simpl. repeat split.
  - rewrite lookup_app_l by lia. rewrite lookup_take_lt by lia. exact H0.
  - intros k c Hc Hlt. rewrite length_app, Hlen in Hlt. simpl in Hlt.
    rewrite lookup_app_l in Hc by lia. rewrite lookup_take_lt in Hc by lia.
    destruct (Nat.eq_dec k (Z.to_nat (stepNumber s))) as [-> | Hne].
    + rewrite Hlook in Hc. injection Hc as <-. exact Hw.
    + apply (Hlast k c Hc). apply lookup_lt_Some in Hlook. lia.
  - exact Hth.
Qed.

Lemma exec_Some c s s' :
  exec c s = Some s' ->
  match c with
  | Play i => handleClick i s = Some s'
  | JumpTo step => s' = jumpTo step s
  | Undo => s' = handleUndo s
  | Redo => s' = handleRedo s
  | Reset => s' = handleReset s
  | ToggleTheme => s' = toggleTheme s
  end.
Proof.
  unfold exec, handleClick. destruct (render s); simpl; [|discriminate].
  intros H. injection H as <-. destruct c; reflexivity.
Qed.

Lemma inv_game_exec s c s' : inv_game s -> exec c s = Some s' -> inv_game s'.
Proof.
  intros Hinv Hexec. apply exec_Some in Hexec.
  destruct c; subst; try (eapply inv_game_click; eassumption).
  - apply (inv_game_same_history s); auto.
  - apply (inv_game_same_history s); auto; unfold handleUndo;
      destruct (0 <? stepNumber s); reflexivity.
  - apply (inv_game_same_history s); auto; unfold handleRedo;
      destruct (stepNumber s <? _); reflexivity.
  - destruct Hinv as (_ & _ & Hth). repeat split; simpl; auto.
    intros k b _ Hk. simpl in Hk. lia.
  - destruct Hinv as (H0 & Hlast & Hth). repeat split; simpl; auto.
    destruct (String.eqb (theme s) "light"); auto.
Qed.

Lemma reachable_inv_game s : reachable s -> inv_game s.
Proof.
  induction 1 as [|s c s' _ IH _ Hexec]; [apply inv_game_init|].
  eapply inv_game_exec; eassumption.
Qed.

(** *** Counting *)

Lemma count_in_cons p b j cells :
  count_in p b (j :: cells)
  = (if bool_decide (get b j = str p) then 1 else 0) + count_in p b cells.
Proof. reflexivity. Qed.

Lemma count_in_nonneg p b cells : 0 <= count_in p b cells.
Proof.
  induction cells as [|j cells IH]; [reflexivity|].
  rewrite count_in_cons. destruct (bool_decide _); lia.
Qed.

Lemma count_in_both_le b cells :
  count_in X b cells + count_in O b cells <= Z.of_nat (length cells).
Proof.
  induction cells as [|j cells IH]; [reflexivity|].
  rewrite !count_in_cons. simpl length.
  destruct (get b j) as [| |[|]]; simpl; lia.
Qed.

Lemma count_in_full b cells :
  count_in X b cells + count_in O b cells = Z.of_nat (length cells)
  <-> forall j, In j cells -> Boolean (get b j) = true.
Proof.
  induction cells as [|j cells IH]; [simpl; tauto|].
  rewrite !count_in_cons. simpl length.
  pose proof (count_in_both_le b cells) as Hle.
  split.
  - intros Hsum k [<- | Hin].
    + destruct (get b j) as [| |[|]]; simpl in *; try reflexivity; lia.
    + apply IH; [|exact Hin].
      destruct (get b j) as [| |[|]]; simpl in *; lia.
  - intros Hall. pose proof (Hall j (or_introl eq_refl)) as Hj.
    assert (Hrest : count_in X b cells + count_in O b cells
                    = Z.of_nat (length cells))
      by (apply IH; intros k Hk; apply Hall; right; exact Hk).
    destruct (get b j) as [| |[|]]; simpl in *; try discriminate; lia.
Qed.

Lemma count_mark_empty p : count_mark p empty_squares = 0.
Proof. destruct p; reflexivity. Qed.

Lemma count_mark_one_move p q b b' :
  one_move p b b' ->
  count_mark q b' = count_mark q b + (if bool_decide (p = q) then 1 else 0).
Proof.
  intros (i & Hi & Hnull & Hmark & Hrest).
  unfold count_mark, count_in, grid. simpl.
  apply in_grid in Hi.
  destruct Hi as [-> | [-> | [-> | [-> | [-> | [-> | [-> | [-> | ->]]]]]]]];
    rewrite ?(Hrest 0), ?(Hrest 1), ?(Hrest 2), ?(Hrest 3), ?(Hrest 4),
            ?(Hrest 5), ?(Hrest 6), ?(Hrest 7), ?(Hrest 8) by lia;
    rewrite Hnull, Hmark; destruct p, q; simpl; lia.
Qed.

Lemma count_mark_line p b l :
  In l lines -> holds_line b p l -> 3 <= count_mark p b.
Proof.
  intros Hin Hl. apply in_lines in Hin.
  pose proof (count_in_nonneg p b) as Hnn.
  unfold count_mark, count_in, grid. simpl.
  destruct Hin as [-> | [-> | [-> | [-> | [-> | [-> | [-> | ->]]]]]]];
    destruct Hl as (Ha & Hb & Hc); rewrite Ha, Hb, Hc;
    rewrite !(bool_decide_eq_true_2 (str p = str p) eq_refl);
    repeat match goal with
           | |- context [bool_decide ?P] => destruct (bool_decide P)
           end; lia.
Qed.

Lemma history_counts s (k : nat) b :
  inv s -> inv_game s -> history s !! k = Some b ->
  count_mark X b = (Z.of_nat k + 1) / 2 /\ count_mark O b = Z.of_nat k / 2.
Proof.
  intros (_ & _ & _ & Hadj) (H0 & _ & _). revert b.
  induction k as [|k IH]; intros b Hb.
  - rewrite H0 in Hb. injection Hb as <-. split; reflexivity.
  - destruct (lookup_lt_is_Some_2 (history s) k) as [a Ha];
      [apply lookup_lt_Some in Hb; lia|].
    destruct (IH a Ha) as [HX HO].
    pose proof (Hadj k a b Ha Hb) as Hmove.
    rewrite (count_mark_one_move _ X _ _ Hmove), (count_mark_one_move _ O _ _ Hmove).
    rewrite HX, HO. unfold mover.
    replace (Z.of_nat (S k)) with (Z.of_nat k + 1) by lia.
    destruct (Z.even (Z.of_nat k)) eqn:He; simpl.
    + apply Z.even_spec in He as [m Hm]. rewrite Hm.
      split; [|rewrite Z.add_0_r].
      * replace (2 * m + 1 + 1) with ((m + 1) * 2) by lia.
        rewrite Z.div_mul by lia.
        replace (2 * m + 1) with (1 + m * 2) by lia.
        rewrite Z.div_add by lia. reflexivity.
      * replace (2 * m + 1) with (1 + m * 2) by lia.
        rewrite Z.div_add by lia. rewrite (Z.mul_comm 2 m), Z.div_mul by lia.
        reflexivity.
    + assert (Ho : Z.odd (Z.of_nat k) = true)
        by (rewrite <- Z.negb_even, He; reflexivity).
      apply Z.odd_spec in Ho as [m Hm]. rewrite Hm.
      split; [rewrite Z.add_0_r|].
      * replace (2 * m + 1 + 1 + 1) with (1 + (m + 1) * 2) by lia.
        rewrite Z.div_add by lia.
        replace (2 * m + 1 + 1) with ((m + 1) * 2) by lia.
        rewrite Z.div_mul by lia. reflexivity.
      * replace (2 * m + 1 + 1) with ((m + 1) * 2) by lia.
        rewrite Z.div_mul by lia.
        replace (2 * m + 1) with (1 + m * 2) by lia.
        rewrite Z.div_add by lia. reflexivity.
Qed.

End GameInvariant.

Section GameFacts.

Implicit Types (s : State) (b : JsArray) (p : Player).

Lemma in_grid_In j : 0 <= j <= 8 -> In j grid.
Proof. intros Hj. simpl. lia. Qed.

Lemma In_grid_range j : In j grid -> 0 <= j <= 8.
Proof. simpl. lia. Qed.

Lemma board9_full_iff b :
  board9 b ->
  every_Boolean b = true <-> count_mark X b + count_mark O b = 9.
Proof.
  intros Hb9. unfold count_mark.
  change 9 with (Z.of_nat (length grid)). rewrite count_in_full. split.
  - intros Hall j Hj. apply every_Boolean_board9; auto using In_grid_range.
  - intros Hall. unfold every_Boolean. apply forallb_forall. intros slot Hin.
    apply list_elem_of_In, list_elem_of_lookup in Hin as [n Hn].
    destruct Hb9 as (Hlen & _ & _).
    pose proof (lookup_lt_Some _ _ _ Hn) as Hlt.
    assert (Hn8 : 0 <= Z.of_nat n <= 8) by lia.
    specialize (Hall (Z.of_nat n) (in_grid_In _ Hn8)).
    unfold get, is_index in Hall.
    replace ((0 <=? Z.of_nat n) && (Z.of_nat n <? 2 ^ 32 - 1)) with true in Hall
      by (symmetry; apply andb_true_iff; split; [apply Z.leb_le | apply Z.ltb_lt]; lia).
    rewrite Nat2Z.id, Hn in Hall. destruct slot; [exact Hall | reflexivity].
Qed.

Lemma half_sum k : (k + 1) / 2 + k / 2 = k.
Proof. Z.div_mod_to_equations. lia. Qed.

Lemma reachable_board s k b :
  reachable s -> hist_get (history s) k = Some b ->
  board9 b
  /\ count_mark X b = (k + 1) / 2 /\ count_mark O b = k / 2
  /\ 0 <= k <= 9.
Proof.
  intros Hr Hget. pose proof (reachable_inv s Hr) as Hinv.
  pose proof (reachable_inv_game s Hr) as Hgame.
  apply hist_get_Some in Hget as [Hk Hlook].
  destruct (history_counts s _ b Hinv Hgame Hlook) as [HX HO].
  rewrite Z2Nat.id in HX, HO by lia.
  destruct Hinv as (_ & _ & Hall & _).
  pose proof (proj1 (Forall_lookup _ _) Hall _ _ Hlook) as Hb9.
  pose proof (count_in_both_le b grid) as Hle. fold (count_mark X b) in Hle.
  fold (count_mark O b) in Hle. rewrite HX, HO, half_sum in Hle. simpl in Hle.
  split; [exact Hb9|]. split; [exact HX|]. split; [exact HO|]. lia.
Qed.

Lemma reachable_length s :
  reachable s -> 1 <= Z.of_nat (length (history s)) <= 10.
Proof.
  intros Hr. pose proof (reachable_inv s Hr) as (Hk & _).
  destruct (hist_get_in_range (history s) (Z.of_nat (length (history s)) - 1))
    as [b Hb]; [lia|].
  destruct (reachable_board s _ b Hr Hb) as (_ & _ & _ & Hlast). lia.
Qed.

End GameFacts.

(** In every reachable state the board at step [k] of the history holds
    [k] marks: those of X number [(k+1)/2] and those of O number [k/2],
    rounded down; X is never behind and never more than one ahead. *)
Theorem history_mark_counts (s : State) (k : Z) (b : JsArray) :
  reachable s ->
  hist_get (history s) k = Some b ->
  count_mark X b = (k + 1) / 2
  /\ count_mark O b = k / 2
  /\ count_mark X b + count_mark O b = k
  /\ count_mark O b <= count_mark X b <= count_mark O b + 1.
Proof.
  intros Hr Hget. destruct (reachable_board s k b Hr Hget) as (_ & HX & HO & _).
  rewrite HX, HO. split; [reflexivity|]. split; [reflexivity|].
  split; [apply half_sum|]. Z.div_mod_to_equations. lia.
Qed.

Lemma history_mark_counts_witness :
  exists s b,
    run [Play 4; Play 0; Play 8] init = Some s
    /\ hist_get (history s) 3 = Some b
    /\ count_mark X b = 2 /\ count_mark O b = 1.
Proof.
  eexists. eexists.
  split; [vm_compute; reflexivity|].
  split; [vm_compute; reflexivity|].
  match goal with
  | |- count_mark X ?b = _ /\ _ =>
      destruct (history_mark_counts
                  (mkState [empty_squares; set empty_squares 4 X;
                            set (set empty_squares 4 X) 0 O; b] 3 false "light")
                  3 b) as (HX & HO & _)
  end.
  - eapply reach_step with (c := Play 8);
      [eapply reach_step with (c := Play 0);
       [eapply reach_step with (c := Play 4);
        [apply reach_init | simpl; lia | vm_compute; reflexivity]
       | simpl; lia | vm_compute; reflexivity]
      | simpl; lia | vm_compute; reflexivity].
  - reflexivity.
  - split; [exact HX | exact HO].
Defined.

(** In every reachable state the history starts with the empty board and has
    between one and ten entries, the cursor points into it, [App] renders
    and every command runs. *)
Theorem reachable_bounds (s : State) :
  reachable s ->
  hist_get (history s) 0 = Some empty_squares
  /\ 1 <= Z.of_nat (length (history s)) <= 10
  /\ 0 <= stepNumber s <= Z.of_nat (length (history s)) - 1
  /\ is_Some (App s)
  /\ forall c, is_Some (exec c s).
Proof.
  intros Hr. pose proof (reachable_inv s Hr) as (Hk & _).
  pose proof (reachable_inv_game s Hr) as (H0 & _).
  pose proof (reachable_length s Hr) as Hlen.
  split; [exact H0|]. split; [lia|]. split; [lia|].
  destruct (hist_get_in_range (history s) (stepNumber s) Hk) as [c Hc].
  split.
  - unfold App. rewrite (render_Some _ _ Hc). simpl. eauto.
  - intros cmd. destruct (reachable_exec_total s cmd Hr) as [s' Hs']. eauto.
Qed.

Lemma reachable_bounds_witness :
  is_Some (App init) /\ is_Some (exec (Play 4) init).
Proof.
  destruct (reachable_bounds init reach_init) as (_ & _ & _ & Happ & Hexec).
  split; [exact Happ | apply Hexec].
Defined.

Section NotLast.

Implicit Types (s : State) (b : JsArray).

Lemma reachable_not_last s k b :
  reachable s ->
  hist_get (history s) k = Some b ->
  k < Z.of_nat (length (history s)) - 1 ->
  evaluate b = InProgress.
Proof.
  intros Hr Hget Hk.
  destruct (reachable_board s k b Hr Hget) as (Hb9 & HX & HO & _).
  pose proof (reachable_length s Hr) as Hlen.
  pose proof (reachable_inv_game s Hr) as (_ & Hlast & _).
  pose proof (hist_get_Some _ _ _ Hget) as [Hk0 Hlook].
  unfold evaluate. rewrite (Hlast _ _ Hlook) by lia. simpl.
  destruct (every_Boolean b) eqn:Hfull; [|reflexivity].
  apply (board9_full_iff b Hb9) in Hfull. rewrite HX, HO, half_sum in Hfull. lia.
Qed.

End NotLast.

(** In every reachable state only the last entry of the history can be a
    finished game: every earlier board is InProgress. *)
Theorem only_last_entry_terminal (s : State) (k : Z) (b : JsArray) :
  reachable s ->
  hist_get (history s) k = Some b ->
  k < Z.of_nat (length (history s)) - 1 ->
  evaluate b = InProgress.
Proof. apply reachable_not_last. Qed.

Section LegalRuns.

Implicit Types (s : State) (c : Command) (cs : list Command).

Lemma legalb_legal s c : legalb s c = true -> legal s c.
Proof.
  destruct c; simpl; try tauto; intros H;
    apply andb_true_iff in H as [H1 H2];
    apply Z.leb_le in H1; apply Z.leb_le in H2; lia.
Qed.

Lemma run_legal_reachable cs s s' :
  reachable s -> run_legal cs s = Some s' -> reachable s' /\ run cs s = Some s'.
Proof.
  revert s. induction cs as [|c cs IH]; simpl; intros s Hr Hrun.
  - injection Hrun as <-. auto.
  - destruct (legalb s c) eqn:Hl; [|discriminate].
    destruct (exec c s) as [t|] eqn:He; [|discriminate]. simpl in *.
    apply (IH t); [|exact Hrun].
    eapply reach_step; eauto using legalb_legal.
Qed.

End LegalRuns.

Lemma only_last_entry_terminal_witness :
  exists s b,
    run [Play 0; Play 4; Play 1; Play 3; Play 2; Undo] init = Some s
    /\ hist_get (history s) 4 = Some b
    /\ evaluate b = InProgress.
Proof.
  eassert (Hrun : run_legal [Play 0; Play 4; Play 1; Play 3; Play 2; Undo] init
                  = Some _) by (vm_compute; reflexivity).
  destruct (run_legal_reachable _ _ _ reach_init Hrun) as [Hr Hrun'].
  eexists. eexists. split; [exact Hrun'|]. split; [vm_compute; reflexivity|].
  apply (only_last_entry_terminal _ 4 _ Hr);
    [vm_compute; reflexivity | vm_compute; reflexivity].
Defined.

Section WinnerFacts.

Implicit Types (s : State) (b : JsArray).

Lemma reachable_winner s b (w : WinnerInfo) :
  reachable s ->
  hist_get (history s) (stepNumber s) = Some b ->
  calculateWinner b = Some w ->
  stepNumber s = Z.of_nat (length (history s)) - 1
  /\ 5 <= stepNumber s
  /\ (winner w = str O -> 6 <= stepNumber s)
  /\ winner w = str (mark (negb (xIsNext s)))
  /\ player_indicator (xIsNext s)
     = (if bool_decide (winner w = str X)
        then ("player-x", "player-o active")
        else ("player-x active", "player-o"))%string.
Proof.
  intros Hr Hget Hw.
  pose proof (reachable_inv s Hr) as (Hk & Hx & _ & Hadj).
  pose proof (reachable_inv_game s Hr) as (_ & Hlast & _).
  pose proof (hist_get_Some _ _ _ Hget) as [_ Hlook].
  assert (Hend : stepNumber s = Z.of_nat (length (history s)) - 1).
  { destruct (Z.eq_dec (stepNumber s) (Z.of_nat (length (history s)) - 1));
      [assumption|].
    rewrite (Hlast _ _ Hlook) in Hw by lia. discriminate. }
  destruct (calculateWinner_Some _ _ Hw) as (p & Hp & Hin & Hline).
  pose proof (count_mark_line p b _ Hin Hline) as Hcount.
  destruct (reachable_board s _ b Hr Hget) as (_ & HX & HO & _).
  assert (Hmin : 5 <= stepNumber s /\ (p = O -> 6 <= stepNumber s)).
  { destruct p; [rewrite HX in Hcount | rewrite HO in Hcount];
      split; try discriminate; intros; Z.div_mod_to_equations; lia. }
  destruct Hmin as [H5 H6].
  assert (Hmover : p = mover (stepNumber s - 1)).
  { destruct (hist_get_in_range (history s) (stepNumber s - 1)) as [a Ha]; [lia|].
    apply hist_get_Some in Ha as [_ Ha].
    pose proof (Hlast _ _ Ha ltac:(lia)) as Hnone.
    replace (Z.to_nat (stepNumber s)) with (S (Z.to_nat (stepNumber s - 1)))
      in Hlook by lia.
    pose proof (Hadj _ _ _ Ha Hlook) as (i & _ & _ & Hmark & Hrest).
    rewrite Z2Nat.id in Hmark by lia.
    destruct (decide (p = mover (stepNumber s - 1))) as [|Hne]; [assumption|].
    exfalso. apply (calculateWinner_None a p _ Hnone Hin).
    destruct (line w) as [[x y] z]. destruct Hline as (Hx1 & Hy1 & Hz1).
    assert (Hother : forall j, get b j = str p -> get a j = str p).
    { intros j Hj. rewrite <- (Hrest j); [exact Hj|].
      intros ->. rewrite Hmark in Hj. congruence. }
    repeat split; apply Hother; assumption. }
  assert (Hturn : p = mark (negb (xIsNext s))).
  { rewrite Hmover, Hx. unfold mover, mark.
    rewrite Z.sub_1_r, Z.even_pred, <- Z.negb_even. reflexivity. }
  split; [exact Hend|]. split; [exact H5|].
  split; [intros HO'; apply H6; congruence|].
  split; [congruence|].
  rewrite Hp, Hturn. destruct (xIsNext s); reflexivity.
Qed.


Lemma reachable_full s b :
  reachable s ->
  hist_get (history s) (stepNumber s) = Some b ->
  every_Boolean b = true <-> stepNumber s = 9.
Proof.
  intros Hr Hget.
  destruct (reachable_board s _ b Hr Hget) as (Hb9 & HX & HO & _).
  rewrite (board9_full_iff b Hb9), HX, HO, half_sum. reflexivity.
Qed.

End WinnerFacts.

(** In every reachable state, a winner at the cursor means the cursor is at
    the last entry of the history, at least five moves were played (six when
    O wins), and the winner is the player who moved last, that is, not the
    one [xIsNext] designates: the player indicator marks the loser active. *)
Theorem winner_is_last_mover (s : State) (b : JsArray) (w : WinnerInfo) :
  reachable s ->
  hist_get (history s) (stepNumber s) = Some b ->
  calculateWinner b = Some w ->
  stepNumber s = Z.of_nat (length (history s)) - 1
  /\ 5 <= stepNumber s
  /\ (winner w = str O -> 6 <= stepNumber s)
  /\ winner w = str (mark (negb (xIsNext s)))
  /\ player_indicator (xIsNext s)
     = (if bool_decide (winner w = str X)
        then ("player-x", "player-o active")
        else ("player-x active", "player-o"))%string.
Proof. apply reachable_winner. Qed.

Lemma winner_is_last_mover_witness :
  exists s b w,
    run [Play 0; Play 4; Play 1; Play 3; Play 2] init = Some s
    /\ hist_get (history s) (stepNumber s) = Some b
    /\ calculateWinner b = Some w
    /\ stepNumber s = 5
    /\ winner w = str X /\ xIsNext s = false.
Proof.
  eassert (Hrun : run_legal [Play 0; Play 4; Play 1; Play 3; Play 2] init
                  = Some _) by (vm_compute; reflexivity).
  destruct (run_legal_reachable _ _ _ reach_init Hrun) as [Hr Hrun'].
  eexists. eexists. eexists. split; [exact Hrun'|].
  split; [vm_compute; reflexivity|]. split; [vm_compute; reflexivity|].
  match goal with
  | |- stepNumber ?s = _ /\ winner ?w = _ /\ _ =>
      pose proof (fun b => winner_is_last_mover s b w Hr) as H
  end.
  edestruct H as (_ & _ & _ & Hwin & _);
    [vm_compute; reflexivity | vm_compute; reflexivity |].
  split; [reflexivity|]. split; [exact Hwin | reflexivity].
Defined.

(** In every reachable state the status line is one of: the winner, who is
    the player that moved last, with that player's class; the draw message,
    only after the ninth move; or the next player, only before the ninth
    move, X at the even steps and O at the odd ones, with that player's
    class. *)
Theorem status_line (s : State) (v : View) :
  reachable s ->
  App s = Some v ->
  match v_status v with
  | StatusWinner className w =>
      exists p,
        w = str p /\ p = mark (negb (xIsNext s))
        /\ className = match p with
                       | X => "player-x status-player"
                       | O => "player-o status-player"
                       end%string
  | StatusDraw => stepNumber s = 9
  | StatusNext className label =>
      stepNumber s < 9
      /\ label = (if Z.even (stepNumber s) then "X" else "O")%string
      /\ className = (if Z.even (stepNumber s)
                      then "player-x status-player"
                      else "player-o status-player")%string
  end.
Proof.
  intros Hr Happ.
  pose proof (reachable_inv s Hr) as (Hk & Hx & _).
  destruct (hist_get_in_range (history s) (stepNumber s) Hk) as [b Hget].
  unfold App in Happ. rewrite (render_Some _ _ Hget) in Happ. simpl in Happ.
  injection Happ as <-. simpl. unfold status. simpl.
  destruct (calculateWinner b) as [w|] eqn:Hw.
  - destruct (reachable_winner s b w Hr Hget Hw) as (_ & _ & _ & Hwin & _).
    exists (mark (negb (xIsNext s))). rewrite Hwin.
    destruct (xIsNext s); repeat split.
  - simpl. pose proof (reachable_full s b Hr Hget) as Hfull.
    destruct (reachable_board s _ b Hr Hget) as (_ & _ & _ & H9).
    destruct (every_Boolean b).
    + apply Hfull. reflexivity.
    + rewrite <- Hx. split; [|split; reflexivity].
      destruct (Z.eq_dec (stepNumber s) 9) as [He|]; [|lia].
      apply Hfull in He. discriminate.
Qed.

Lemma status_line_witness :
  exists v,
    App init = Some v
    /\ match v_status v with
       | StatusNext _ label => label = "X"%string
       | _ => False
       end.
Proof.
  eassert (Hv : App init = Some _) by (vm_compute; reflexivity).
  pose proof (status_line init _ reach_init Hv) as H.
  eexists. split; [exact Hv|]. exact (proj1 (proj2 H)).
Defined.

(** ** Undo, redo and the buttons *)

(** In every reachable state the Undo button is disabled exactly when
    [handleUndo] would change nothing, and the Redo button exactly when
    [handleRedo] would change nothing; an enabled button moves the cursor by
    one step. *)
Theorem undo_redo_buttons (s : State) :
  reachable s ->
  (undo_disabled s = true <-> handleUndo s = s)
  /\ (redo_disabled s = true <-> handleRedo s = s)
  /\ (undo_disabled s = false -> stepNumber (handleUndo s) = stepNumber s - 1)
  /\ (redo_disabled s = false -> stepNumber (handleRedo s) = stepNumber s + 1).
Proof.
  intros Hr. pose proof (reachable_inv s Hr) as (Hk & _).
  unfold undo_disabled, redo_disabled, handleUndo, handleRedo.
  destruct (Z.eqb_spec (stepNumber s) 0) as [H0 | H0];
    destruct (Z.eqb_spec (stepNumber s) (Z.of_nat (length (history s)) - 1))
      as [Hl | Hl];
    destruct (Z.ltb_spec 0 (stepNumber s));
    destruct (Z.ltb_spec (stepNumber s) (Z.of_nat (length (history s)) - 1));
    try lia;
    (repeat split; intros; try reflexivity; try discriminate; simpl; try lia);
    match goal with
    | H : _ = s |- _ => apply (f_equal stepNumber) in H; simpl in H; lia
    end.
Qed.

Lemma undo_redo_buttons_witness :
  undo_disabled init = true /\ handleUndo init = init
  /\ redo_disabled init = true /\ handleRedo init = init.
Proof.
  destruct (undo_redo_buttons init reach_init) as (Hu & Hd & _).
  split; [reflexivity|]. split; [apply Hu; reflexivity|].
  split; [reflexivity|]. apply Hd; reflexivity.
Defined.

(** In every reachable state undo followed by redo, and redo followed by
    undo, give the state back whenever the first of the two moves the
    cursor. *)
Theorem undo_redo_round_trip (s : State) :
  reachable s ->
  (0 < stepNumber s -> handleRedo (handleUndo s) = s)
  /\ (stepNumber s < Z.of_nat (length (history s)) - 1 ->
      handleUndo (handleRedo s) = s).
Proof.
  intros Hr. pose proof (reachable_inv s Hr) as (Hk & Hx & _).
  unfold handleUndo, handleRedo. split; intros Hmove.
  - destruct (Z.ltb_spec 0 (stepNumber s)); [|lia]. simpl.
    destruct (Z.ltb_spec (stepNumber s - 1) (Z.of_nat (length (history s)) - 1));
      [|lia].
    replace (stepNumber s - 1 + 1) with (stepNumber s) by lia.
    rewrite is_even_step_even, <- Hx. destruct s; reflexivity.
  - destruct (Z.ltb_spec (stepNumber s) (Z.of_nat (length (history s)) - 1));
      [|lia]. simpl.
    destruct (Z.ltb_spec 0 (stepNumber s + 1)); [|lia].
    replace (stepNumber s + 1 - 1) with (stepNumber s) by lia.
    rewrite is_even_step_even, <- Hx. destruct s; reflexivity.
Qed.

Lemma undo_redo_round_trip_witness :
  exists s,
    run [Play 4; Play 0; Undo] init = Some s
    /\ stepNumber s = 1
    /\ handleRedo (handleUndo s) = s
    /\ handleUndo (handleRedo s) = s.
Proof.
  eassert (Hrun : run_legal [Play 4; Play 0; Undo] init = Some _)
    by (vm_compute; reflexivity).
  destruct (run_legal_reachable _ _ _ reach_init Hrun) as [Hr Hrun'].
  eexists. split; [exact Hrun'|]. split; [reflexivity|].
  match goal with
  | |- handleRedo (handleUndo ?s) = _ /\ _ =>
      destruct (undo_redo_round_trip s Hr) as [Hur Hru]
  end.
  split; [apply Hur; simpl; lia | apply Hru; simpl; lia].
Defined.

(** In every reachable state, after a click that is accepted the cursor is at
    the last entry, so Redo is disabled and does nothing; Undo then shows
    the board, step and turn from before the click, and Redo after that
    Undo restores the state the click produced. *)
Theorem click_then_undo_redo (s s' : State) (i : Z) :
  reachable s ->
  handleClick i s = Some s' ->
  s' <> s ->
  stepNumber s' = Z.of_nat (length (history s')) - 1
  /\ redo_disabled s' = true
  /\ handleRedo s' = s'
  /\ stepNumber (handleUndo s') = stepNumber s
  /\ xIsNext (handleUndo s') = xIsNext s
  /\ hist_get (history (handleUndo s')) (stepNumber (handleUndo s'))
     = hist_get (history s) (stepNumber s)
  /\ handleRedo (handleUndo s') = s'.
Proof.
  intros Hr Hclick Hne.
  pose proof (reachable_inv s Hr) as (Hk & Hx & _).
  destruct (hist_get_in_range (history s) (stepNumber s) Hk) as [b Hget].
  destruct (calculateWinner b) as [w|] eqn:Hw.
  { rewrite (handleClick_ignores s b i Hget) in Hclick by (left; rewrite Hw; eauto).
    congruence. }
  destruct (Boolean (get b i)) eqn:Hocc.
  { rewrite (handleClick_ignores s b i Hget) in Hclick by (right; exact Hocc).
    congruence. }
  rewrite (handleClick_accepts s b i Hget Hw Hocc) in Hclick.
  injection Hclick as <-. clear Hne.
  pose proof (hist_get_Some _ _ _ Hget) as [_ Hlook].
  assert (Hlen : length (take (Z.to_nat (stepNumber s) + 1) (history s))
                 = (Z.to_nat (stepNumber s) + 1)%nat)
    by (rewrite length_take; lia).
  unfold redo_disabled, handleRedo, handleUndo. simpl.
  rewrite length_app, Hlen. simpl.
  destruct (Z.ltb_spec (stepNumber s + 1)
              (Z.of_nat (Z.to_nat (stepNumber s) + 1 + 1) - 1)); [lia|].
  destruct (Z.ltb_spec 0 (stepNumber s + 1)); [|lia]. simpl.
  rewrite length_app, Hlen. simpl.
  replace (stepNumber s + 1 - 1) with (stepNumber s) by lia.
  destruct (Z.ltb_spec (stepNumber s)
              (Z.of_nat (Z.to_nat (stepNumber s) + 1 + 1) - 1)); [|lia].
  rewrite !is_even_step_even, <- Hx.
  repeat split; try lia.
  - apply Z.eqb_eq. lia.
  - rewrite Hget. unfold hist_get. destruct (Z.leb_spec 0 (stepNumber s)); [|lia].
    rewrite lookup_app_l by lia. rewrite lookup_take_lt by lia. exact Hlook.
  - f_equal. rewrite Z.even_add, <- Hx. destruct (xIsNext s); reflexivity.
Qed.

Lemma click_then_undo_redo_witness :
  exists s',
    handleClick 4 init = Some s'
    /\ redo_disabled s' = true
    /\ handleRedo (handleUndo s') = s'.
Proof.
  eassert (Hclick : handleClick 4 init = Some _) by (vm_compute; reflexivity).
  eexists. split; [exact Hclick|].
  match type of Hclick with
  | _ = Some ?s' =>
      destruct (click_then_undo_redo init s' 4 reach_init Hclick)
        as (_ & Hd & _ & _ & _ & _ & Hback)
  end.
  - intros Heq. apply (f_equal stepNumber) in Heq. vm_compute in Heq. discriminate.
  - split; [exact Hd | exact Hback].
Defined.

(** ** The theme button and jumps *)

(** In every reachable state the theme is "light" or "dark"; the toggle
    switches to the other one, so two toggles give the state back, and the
    button's [aria-label] names the theme the next toggle switches to. *)
Theorem theme_toggle (s : State) :
  reachable s ->
  (theme s = "light" \/ theme s = "dark")%string
  /\ theme (toggleTheme s) <> theme s
  /\ toggleTheme (toggleTheme s) = s
  /\ theme_aria_label s
     = ("Switch to " ++ theme (toggleTheme s) ++ " mode")%string.
Proof.
  intros Hr. pose proof (reachable_inv_game s Hr) as (_ & _ & Hth).
  split; [exact Hth|]. unfold toggleTheme, theme_aria_label.
  destruct s as [h k x t]. simpl in *.
  destruct Hth as [-> | ->]; simpl; repeat split; discriminate.
Qed.

Lemma theme_toggle_witness :
  theme (toggleTheme init) = "dark"%string
  /\ toggleTheme (toggleTheme init) = init
  /\ theme_aria_label init = "Switch to dark mode"%string.
Proof.
  destruct (theme_toggle init reach_init) as (_ & _ & Htwice & Hlabel).
  split; [reflexivity|]. split; [exact Htwice | exact Hlabel].
Defined.

(** In every reachable state, a jump to a step of the history followed by a
    jump back to the step the cursor was at gives the state back; after a
    jump to a step outside the history the render throws, so the jump back
    cannot be issued. *)
Theorem jumpTo_and_back (s : State) (step : Z) :
  reachable s ->
  (0 <= step <= Z.of_nat (length (history s)) - 1 ->
   run [JumpTo step; JumpTo (stepNumber s)] s = Some s)
  /\ (step < 0 \/ Z.of_nat (length (history s)) - 1 < step ->
      exec (JumpTo step) s = Some (jumpTo step s)
      /\ render (jumpTo step s) = None
      /\ run [JumpTo step; JumpTo (stepNumber s)] s = None).
Proof.
  intros Hr. pose proof (reachable_inv s Hr) as (Hk & Hx & _).
  destruct (hist_get_in_range (history s) (stepNumber s) Hk) as [b Hget].
  assert (Hfirst : exec (JumpTo step) s = Some (jumpTo step s)).
  { unfold exec. rewrite (render_Some _ _ Hget). reflexivity. }
  split.
  - intros Hin. simpl. rewrite Hfirst. simpl.
    destruct (hist_get_in_range (history s) step) as [c Hc]; [lia|].
    unfold exec. rewrite (render_Some (jumpTo step s) c Hc). simpl.
    unfold jumpTo. simpl. rewrite is_even_step_even, <- Hx.
    destruct s; reflexivity.
  - intros Hout.
    assert (Hnone : render (jumpTo step s) = None).
    { unfold render, hist_get. simpl.
      destruct (Z.leb_spec 0 step) as [H0 | H0]; [|reflexivity].
      rewrite lookup_ge_None_2 by lia. reflexivity. }
    split; [exact Hfirst|]. split; [exact Hnone|].
    simpl. rewrite Hfirst. simpl. unfold exec. rewrite Hnone. reflexivity.
Qed.

Lemma jumpTo_and_back_witness :
  exists s,
    run [Play 4; Play 0] init = Some s
    /\ run [JumpTo 1; JumpTo 2] s = Some s
    /\ run [JumpTo 5; JumpTo 2] s = None
    /\ run [JumpTo (-1); JumpTo 2] s = None.
Proof.
  eassert (Hrun : run_legal [Play 4; Play 0] init = Some _)
    by (vm_compute; reflexivity).
  destruct (run_legal_reachable _ _ _ reach_init Hrun) as [Hr Hrun'].
  eexists. split; [exact Hrun'|].
  match type of Hrun' with
  | _ = Some ?s =>
      pose proof (proj1 (jumpTo_and_back s 1 Hr)) as Hin;
      pose proof (proj2 (jumpTo_and_back s 5 Hr)) as Hhigh;
      pose proof (proj2 (jumpTo_and_back s (-1) Hr)) as Hlow
  end.
  split; [apply Hin; simpl; lia|].
  split; [apply Hhigh; right; simpl; lia | apply Hlow; left; lia].
Defined.

(** ** Clicks outside the grid *)

Section OutsideGrid.

Implicit Types (b : JsArray) (i : Z) (p : Player).

(** The winner depends on the nine cells of the grid only. *)
Lemma calculateWinner_grid b b' :
  (forall j, 0 <= j <= 8 -> get b' j = get b j) ->
  calculateWinner b' = calculateWinner b.
Proof.
  intros Hsame. unfold calculateWinner, lines. cbn [scan_lines line_hit fst].
  rewrite (Hsame 0) by lia. rewrite (Hsame 1) by lia. rewrite (Hsame 2) by lia.
  rewrite (Hsame 3) by lia. rewrite (Hsame 4) by lia. rewrite (Hsame 5) by lia.
  rewrite (Hsame 6) by lia. rewrite (Hsame 7) by lia. rewrite (Hsame 8) by lia.
  reflexivity.
Qed.

Lemma every_Boolean_set_outside b i p :
  board9 b -> i < 0 \/ 8 < i ->
  every_Boolean (set (slice b) i p) = every_Boolean b.
Proof.
  intros (Hlen & _ & _) Hout. unfold set, slice, arr_length. simpl.
  destruct (is_index i) eqn:Hi; [|reflexivity].
  apply andb_true_iff in Hi as [H0 _]. apply Z.leb_le in H0.
  destruct (Z.ltb_spec i (Z.of_nat (length (elems b)))) as [Hlt | Hge].
  - lia.
  - unfold every_Boolean. simpl. rewrite !forallb_app. simpl.
    rewrite andb_true_r.
    replace (forallb _ (replicate _ None)) with true; [apply andb_true_r|].
    symmetry. apply forallb_forall. intros slot Hin.
    apply list_elem_of_In, elem_of_replicate in Hin as [-> _]. reflexivity.
Qed.

End OutsideGrid.

(** A click with an index outside 0..8 on an InProgress board of the grid
    uses up the turn without touching the game: the new board is still
    InProgress, with the same cells 0..8, and the same click repeated is
    ignored, because the position outside the grid now holds the mark. *)
Theorem outside_grid_click_once (s : State) (b : JsArray) (i : Z) :
  hist_get (history s) (stepNumber s) = Some b ->
  board9 b ->
  evaluate b = InProgress ->
  i < 0 \/ 8 < i ->
  exists s' b',
    handleClick i s = Some s'
    /\ hist_get (history s') (stepNumber s') = Some b'
    /\ (forall j, 0 <= j <= 8 -> get b' j = get b j)
    /\ evaluate b' = InProgress
    /\ xIsNext s' = negb (xIsNext s)
    /\ handleClick i s' = Some s'.
Proof.
  intros Hget Hb9 Hprog Hout.
  pose proof (get_board9_out b i Hb9 Hout) as Hundef.
  pose proof (hist_get_Some _ _ _ Hget) as [Hk _].
  pose proof (evaluate_InProgress b Hprog) as Hw.
  assert (Hclick := handleClick_accepts s b i Hget Hw ltac:(rewrite Hundef; reflexivity)).
  set (b' := set (slice b) i (mark (xIsNext s))) in *.
  assert (Hsame : forall j, 0 <= j <= 8 -> get b' j = get b j).
  { intros j Hj. unfold b'. rewrite get_set_ne by lia.
    rewrite (slice_board9 b Hb9). reflexivity. }
  assert (Hget' : hist_get (take (Z.to_nat (stepNumber s) + 1) (history s) ++ [b'])
                           (stepNumber s + 1) = Some b').
  { unfold hist_get. destruct (Z.leb_spec 0 (stepNumber s + 1)); [|lia].
    rewrite lookup_app_r by (rewrite length_take; lia).
    rewrite length_take.
    replace (Z.to_nat (stepNumber s + 1)
             - (Z.to_nat (stepNumber s) + 1) `min` length (history s))%nat
      with 0%nat by lia.
    reflexivity. }
  eexists. exists b'. split; [exact Hclick|]. simpl.
  split; [exact Hget'|]. split; [exact Hsame|]. split; [|split; [reflexivity|]].
  - unfold evaluate in *. rewrite (calculateWinner_grid b b' Hsame).
    unfold b'. rewrite (every_Boolean_set_outside b i _ Hb9 Hout). exact Hprog.
  - eapply handleClick_ignores; [exact Hget'|].
    right. unfold b'. rewrite get_set_eq. reflexivity.
Qed.

Lemma outside_grid_click_once_witness :
  exists s',
    handleClick (-1) init = Some s'
    /\ s' <> init
    /\ handleClick (-1) s' = Some s'.
Proof.
  destruct (outside_grid_click_once init empty_squares (-1) eq_refl
              empty_squares_board9 eq_refl ltac:(lia))
    as (s' & b' & Hclick & _ & _ & _ & Hx & Hagain).
  exists s'. split; [exact Hclick|]. split; [|exact Hagain].
  intros ->. discriminate.
Defined.

(** ** Undo after the end of a game *)

(** In every reachable state whose current board is a finished game (a win
    or a draw), Undo is enabled and shows a board that is InProgress: taking
    back the last move resumes the game. *)
Theorem undo_resumes_game (s : State) (b : JsArray) :
  reachable s ->
  hist_get (history s) (stepNumber s) = Some b ->
  evaluate b <> InProgress ->
  undo_disabled s = false
  /\ exists a,
      hist_get (history (handleUndo s)) (stepNumber (handleUndo s)) = Some a
      /\ evaluate a = InProgress
      /\ xIsNext (handleUndo s) = negb (xIsNext s).
Proof.
  intros Hr Hget Hterm.
  pose proof (reachable_inv s Hr) as (Hk & Hx & _).
  assert (Hlast : stepNumber s = Z.of_nat (length (history s)) - 1).
  { destruct (Z.eq_dec (stepNumber s) (Z.of_nat (length (history s)) - 1));
      [assumption|].
    exfalso. apply Hterm. apply (reachable_not_last s _ b Hr Hget). lia. }
  assert (Hpos : 0 < stepNumber s).
  { destruct (Z.eq_dec (stepNumber s) 0) as [H0|]; [|lia].
    exfalso. apply Hterm.
    pose proof (reachable_inv_game s Hr) as (Hfirst & _).
    apply hist_get_Some in Hget as [_ Hlook]. rewrite H0 in Hlook.
    change (Z.to_nat 0) with 0%nat in Hlook. rewrite Hfirst in Hlook. injection Hlook as <-. reflexivity. }
  split; [unfold undo_disabled; apply Z.eqb_neq; lia|].
  unfold handleUndo. destruct (Z.ltb_spec 0 (stepNumber s)); [|lia]. simpl.
  destruct (hist_get_in_range (history s) (stepNumber s - 1)) as [a Ha]; [lia|].
  exists a. split; [exact Ha|].
  split; [apply (reachable_not_last s _ a Hr Ha); lia|].
  rewrite is_even_step_even, Hx, Z.sub_1_r, Z.even_pred, <- Z.negb_even.
  reflexivity.
Qed.

Lemma undo_resumes_game_witness :
  exists s a,
    run [Play 0; Play 4; Play 1; Play 3; Play 2] init = Some s
    /\ undo_disabled s = false
    /\ hist_get (history (handleUndo s)) (stepNumber (handleUndo s)) = Some a
    /\ evaluate a = InProgress.
Proof.
  eassert (Hrun : run_legal [Play 0; Play 4; Play 1; Play 3; Play 2] init
                  = Some _) by (vm_compute; reflexivity).
  destruct (run_legal_reachable _ _ _ reach_init Hrun) as [Hr Hrun'].
  match type of Hrun' with
  | _ = Some ?s =>
      edestruct (undo_resumes_game s) as (Hd & a & Ha & Hprog & _);
        [exact Hr | vm_compute; reflexivity | vm_compute; discriminate |]
  end.
  eexists. exists a. split; [exact Hrun'|]. split; [exact Hd|].
  split; [exact Ha | exact Hprog].
Defined.
